(** * Particle swarm optimiser: the swarm update engine of [pswarm.py]

    A shallow embedding of [Coursework/PSO/pswarm.py] (classes [PSO] and
    [Particle]) and the properties of its three-phase sweep.

    Numbers.  Python floats and numpy float64 arrays are idealised as exact
    rationals ([Q]); a numpy vector is a [list Q].  Rounding, infinities and
    NaN are outside the model.  Tests such as [x != 0] and [a <= b] are the
    numeric tests [Qeq_bool] and [Qle_bool].

    Objects.  The particles of a swarm live in the list [particles]; a
    reference to a particle (an informant) is its index in that list, so
    reading [informant.fitness_loc] reads the current contents of the store.

    Effects.  Methods of [PSO] are computations in a state-and-exception
    monad over the optimiser object.  A raised exception keeps the state
    reached so far, as in Python.

    Randomness.  [random.random()] is the stream [random]; the generator state
    is the number of values consumed so far.  numpy's generator is a second
    stream, [np_random]. *)

From Stdlib Require Import QArith Qround Lqa ZArith Lia.
From stdpp Require Import base list.

(** ** Exceptions and outcomes *)

Inductive exn : Set :=
| ValueError
| IndexError
| TypeError
| AttributeError
| NotImplementedError.

Inductive outcome (A : Type) : Type :=
| Ok (a : A)
| Raise (e : exn).
Arguments Ok {A} a.
Arguments Raise {A} e.

#[export] Instance outcome_ret : MRet outcome := fun A a => Ok a.
#[export] Instance outcome_bind : MBind outcome := fun A B f m =>
  match m with
  | Ok a => f a
  | Raise e => Raise e
  end.

(** [o or_raise e]: the value of an optional, or the exception [e]. *)
Definition or_raise {A} (o : option A) (e : exn) : outcome A :=
  match o with
  | Some a => Ok a
  | None => Raise e
  end.

(** ** Numbers and numpy vectors *)

Definition Qlt_bool (a b : Q) : bool := negb (Qle_bool b a).

(** [any(v != 0)] for a numpy vector [v]. *)
Definition any_nonzero (v : list Q) : bool :=
  existsb (fun x => negb (Qeq_bool x 0)) v.

(** [eps * v] for a scalar [eps]. *)
Definition np_scale (eps : Q) (v : list Q) : list Q := map (Qmult eps) v.

(** [a + b] on one-dimensional arrays, with numpy's broadcasting of a
    length-one operand; other length mismatches raise [ValueError]. *)
Definition np_add (a b : list Q) : outcome (list Q) :=
  if (length a =? length b)%nat then Ok (zip_with Qplus a b)
  else if (length a =? 1)%nat then Ok (map (Qplus (hd 0%Q a)) b)
  else if (length b =? 1)%nat then Ok (map (fun x => x + hd 0%Q b)%Q a)
  else Raise ValueError.

(** [random.uniform(a, b)] given the value [r] of [random.random()]. *)
Definition uniform (a b r : Q) : Q := (a + (b - a) * r)%Q.

(** ** psobehaviour: FitnessLoc and BoundaryPolicy *)

(** Modelled from the spec: class [FitnessLoc] of [psobehaviour.py], which is
    not among the sources.  A location vector paired with its fitness,
    ordered by fitness only (spec sections 3 and 4.1). *)
Record FitnessLoc : Type := mkFitnessLoc {
  location : list Q;
  fitness : Q
}.

Definition FitnessLoc_lt (a b : FitnessLoc) : bool :=
  Qlt_bool (fitness a) (fitness b).

Definition FitnessLoc_gt (a b : FitnessLoc) : bool :=
  Qlt_bool (fitness b) (fitness a).

(** Modelled from the spec: enum [BoundaryPolicy] of [psobehaviour.py]
    (spec section 6). *)
Inductive BoundaryPolicy : Set :=
| RANDOMREINIT
| REFUSE
| BOUNCE.

(** The two sentinels of the source: [FitnessLoc([], -999999.0)] in
    [PSO.__init__] and [_update_particle], [FitnessLoc([], -9999.0)] in
    [PSO.run]. *)
Definition sentinel_init : FitnessLoc := mkFitnessLoc [] (-999999)%Q.
Definition sentinel_run : FitnessLoc := mkFitnessLoc [] (-9999)%Q.

(** ** class Particle *)

Record Particle : Type := mkParticle {
  position : list Q;
  velocity : list Q;
  fitness_loc : option FitnessLoc;
  fitness_fn : option (list Q -> Q);
  personal_fittest_loc : option FitnessLoc;
  informat_fittest_loc : option FitnessLoc;
  informants : option (list nat);
  velocity_list : list (list Q)
}.

(** [Particle.__init__] *)
Definition Particle_init (pos vel : list Q) (f : option (list Q -> Q)) : Particle :=
  mkParticle pos vel None f None None None [].

Definition update_position (new_position : list Q) (p : Particle) : Particle :=
  mkParticle new_position (velocity p) (fitness_loc p) (fitness_fn p)
    (personal_fittest_loc p) (informat_fittest_loc p) (informants p)
    (velocity_list p).

Definition update_velocity (new_velocity : list Q) (p : Particle) : Particle :=
  mkParticle (position p) new_velocity (fitness_loc p) (fitness_fn p)
    (personal_fittest_loc p) (informat_fittest_loc p) (informants p)
    (velocity_list p).

Definition set_informants (infs : list nat) (p : Particle) : Particle :=
  mkParticle (position p) (velocity p) (fitness_loc p) (fitness_fn p)
    (personal_fittest_loc p) (informat_fittest_loc p) (Some infs)
    (velocity_list p).

Definition set_fitness_loc (fl : FitnessLoc) (p : Particle) : Particle :=
  mkParticle (position p) (velocity p) (Some fl) (fitness_fn p)
    (personal_fittest_loc p) (informat_fittest_loc p) (informants p)
    (velocity_list p).

Definition set_personal_fittest_loc (fl : FitnessLoc) (p : Particle) : Particle :=
  mkParticle (position p) (velocity p) (fitness_loc p) (fitness_fn p)
    (Some fl) (informat_fittest_loc p) (informants p) (velocity_list p).

Definition set_velocity_list (vl : list (list Q)) (p : Particle) : Particle :=
  mkParticle (position p) (velocity p) (fitness_loc p) (fitness_fn p)
    (personal_fittest_loc p) (informat_fittest_loc p) (informants p) vl.

(** [Particle.assess_fitness]: the returned FitnessLoc and the mutated
    particle.  Calling a missing fitness function is a [TypeError]. *)
Definition assess_fitness (p : Particle) : outcome FitnessLoc * Particle :=
  match fitness_fn p with
  | None => (Raise TypeError, p)
  | Some f =>
      let fl := mkFitnessLoc (position p) (f (position p)) in
      let p1 := set_fitness_loc fl p in
      let p2 := match personal_fittest_loc p1 with
                | None => set_personal_fittest_loc fl p1
                | Some _ => p1
                end in
      let p3 := match personal_fittest_loc p2 with
                | Some pb =>
                    if FitnessLoc_gt fl pb then set_personal_fittest_loc fl p2
                    else p2
                | None => p2
                end in
      (Ok fl, p3)
  end.

(** ** class PSO *)

(** The argument of [set_search_dimensions]: an [int], a [list] of bound
    pairs, or anything else. *)
Inductive dimensions_arg : Type :=
| DimInt (n : Z)
| DimList (l : list (Q * Q))
| DimOther.

(** The optimiser object.  [max_iter] is [termination_args['max_iter']];
    [random_state] and [np_random_state] are the positions of the two
    module-level generators.  Fields that the sweep never reads
    ([termination_policy], [verbose], [num_runs]) are left out. *)
Record PSO : Type := mkPSO {
  swarm_size : Z;
  boundary : Q * Q;
  alpha : Q;
  beta : Q;
  gamma : Q;
  delta : Q;
  epsilon : Q;
  boundary_policy : BoundaryPolicy;
  max_iter : Z;
  search_dimension : option (list (Q * Q));
  search_dimension_set : bool;
  best : option FitnessLoc;
  previous_best : option FitnessLoc;
  particles : option (list Particle);
  num_informants : Z;
  pso_fitness_fn : option (list Q -> Q);
  random_state : nat;
  np_random_state : nat
}.

(** [PSO.__init__] with the given keyword arguments. *)
Definition PSO_init (swarm_size num_informants : Z) (bound : Q * Q)
    (alpha beta gamma delta epsilon : Q) (policy : BoundaryPolicy)
    (max_iter : Z) : PSO :=
  mkPSO swarm_size bound alpha beta gamma delta epsilon policy max_iter
    None false None (Some sentinel_init) None num_informants None 0 0.

(** The default of the [bound] argument of [PSO.__init__]. *)
Definition default_bound : Q * Q := (1, -1)%Q.

Definition set_search_dimension (d : option (list (Q * Q))) (b : bool) (s : PSO) : PSO :=
  mkPSO (swarm_size s) (boundary s) (alpha s) (beta s) (gamma s) (delta s)
    (epsilon s) (boundary_policy s) (max_iter s) d b (best s)
    (previous_best s) (particles s) (num_informants s) (pso_fitness_fn s)
    (random_state s) (np_random_state s).

Definition set_best (b : option FitnessLoc) (s : PSO) : PSO :=
  mkPSO (swarm_size s) (boundary s) (alpha s) (beta s) (gamma s) (delta s)
    (epsilon s) (boundary_policy s) (max_iter s) (search_dimension s)
    (search_dimension_set s) b (previous_best s) (particles s)
    (num_informants s) (pso_fitness_fn s) (random_state s) (np_random_state s).

Definition set_previous_best (b : option FitnessLoc) (s : PSO) : PSO :=
  mkPSO (swarm_size s) (boundary s) (alpha s) (beta s) (gamma s) (delta s)
    (epsilon s) (boundary_policy s) (max_iter s) (search_dimension s)
    (search_dimension_set s) (best s) b (particles s)
    (num_informants s) (pso_fitness_fn s) (random_state s) (np_random_state s).

Definition set_particles (ps : option (list Particle)) (s : PSO) : PSO :=
  mkPSO (swarm_size s) (boundary s) (alpha s) (beta s) (gamma s) (delta s)
    (epsilon s) (boundary_policy s) (max_iter s) (search_dimension s)
    (search_dimension_set s) (best s) (previous_best s) ps
    (num_informants s) (pso_fitness_fn s) (random_state s) (np_random_state s).

Definition set_fitness_fn (f : list Q -> Q) (s : PSO) : PSO :=
  mkPSO (swarm_size s) (boundary s) (alpha s) (beta s) (gamma s) (delta s)
    (epsilon s) (boundary_policy s) (max_iter s) (search_dimension s)
    (search_dimension_set s) (best s) (previous_best s) (particles s)
    (num_informants s) (Some f) (random_state s) (np_random_state s).

Definition set_random_state (n : nat) (s : PSO) : PSO :=
  mkPSO (swarm_size s) (boundary s) (alpha s) (beta s) (gamma s) (delta s)
    (epsilon s) (boundary_policy s) (max_iter s) (search_dimension s)
    (search_dimension_set s) (best s) (previous_best s) (particles s)
    (num_informants s) (pso_fitness_fn s) n (np_random_state s).

Definition set_np_random_state (n : nat) (s : PSO) : PSO :=
  mkPSO (swarm_size s) (boundary s) (alpha s) (beta s) (gamma s) (delta s)
    (epsilon s) (boundary_policy s) (max_iter s) (search_dimension s)
    (search_dimension_set s) (best s) (previous_best s) (particles s)
    (num_informants s) (pso_fitness_fn s) (random_state s) n.

(** ** The monad of methods on the optimiser *)

Definition M (A : Type) : Type := PSO -> outcome A * PSO.

#[export] Instance M_ret : MRet M := fun A a s => (Ok a, s).
#[export] Instance M_bind : MBind M := fun A B f m s =>
  match m s with
  | (Ok a, s') => f a s'
  | (Raise e, s') => (Raise e, s')
  end.

Definition raise {A} (e : exn) : M A := fun s => (Raise e, s).
Definition gets {A} (f : PSO -> A) : M A := fun s => (Ok (f s), s).
Definition modify (f : PSO -> PSO) : M unit := fun s => (Ok tt, f s).
Definition lift {A} (o : outcome A) : M A := fun s => (o, s).

(** [for x in xs: body(x)] *)
Fixpoint for_each {X} (xs : list X) (body : X -> M unit) : M unit :=
  match xs with
  | [] => mret tt
  | x :: rest => body x ;; for_each rest body
  end.

(** The objects of [self.particles]; iterating over [None] is a [TypeError]. *)
Definition get_particles : M (list Particle) :=
  ps ← gets particles; lift (or_raise ps TypeError).

Definition get_particle (k : nat) : M Particle :=
  ps ← get_particles; lift (or_raise (ps !! k) IndexError).

(** A write to the fields of the [k]-th particle object. *)
Definition put_particle (k : nat) (p : Particle) : M unit :=
  ps ← get_particles; modify (set_particles (Some (<[k:=p]> ps))).

(** [for particle in self.particles: body] *)
Definition for_particles (body : nat -> M unit) : M unit :=
  ps ← get_particles; for_each (seq 0 (length ps)) body.

Definition get_search_dimension : M (list (Q * Q)) :=
  d ← gets search_dimension; lift (or_raise d TypeError).

(** [PSO.set_fitness_fn] *)
Definition PSO_set_fitness_fn (f : list Q -> Q) : M unit :=
  modify (set_fitness_fn f).

(** [PSO.set_search_dimensions] *)
Definition set_search_dimensions (dimensions : dimensions_arg) : M unit :=
  match dimensions with
  | DimInt n =>
      b ← gets boundary;
      modify (set_search_dimension (Some (replicate (Z.to_nat n) b)) true)
  | DimList l => modify (set_search_dimension (Some l) true)
  | DimOther =>
      s ← gets search_dimension;
      modify (set_search_dimension s false);;
      raise ValueError
  end.

(** Modelled from the spec: class [TerminationPolicyManager] of
    [psobehaviour.py], which is not among the sources.  Under ITERATIONS
    the controller terminates once the iteration count reaches [max_iter]
    (spec section 4.5); [next_iteration] advances the counter. *)
Record TerminationPolicyManager : Type := mkController {
  current_iter : Z;
  ctl_max_iter : Z
}.

Definition terminate (c : TerminationPolicyManager) : bool :=
  (ctl_max_iter c <=? current_iter c)%Z.

Definition next_iteration (c : TerminationPolicyManager) : TerminationPolicyManager :=
  mkController (current_iter c + 1) (ctl_max_iter c).

Section Swarm.

(** The successive values of [random.random()] and the successive raw
    integers of numpy's generator. *)
Variable random : nat -> Q.
Variable np_random : nat -> nat.

(** *** Phase 1: [_pso_assess_fitness] *)

(** [particle.assess_fitness()] on the [k]-th particle. *)
Definition call_assess_fitness (k : nat) : M FitnessLoc :=
  particle ← get_particle k;
  let '(r, particle') := assess_fitness particle in
  put_particle k particle';;
  lift r.

Definition _pso_assess_fitness_body (k : nat) : M unit :=
  particle ← get_particle k;
  if negb (any_nonzero (velocity particle)) then mret tt
  else
    fitness ← call_assess_fitness k;
    b ← gets best;
    if match b with
       | None => true
       | Some b' => FitnessLoc_gt fitness b'
       end
    then modify (set_previous_best b);; modify (set_best (Some fitness))
    else mret tt.

Definition _pso_assess_fitness : M unit :=
  for_particles _pso_assess_fitness_body.

(** *** Phase 2: [_update_particle] *)

(** The scan over [particle.informants], starting from [acc].  An informant
    that was never assessed has [fitness_loc = None]; comparing with it
    raises.  An index outside the swarm has no counterpart in the source. *)
Fixpoint scan_informants (ps : list Particle) (acc : FitnessLoc)
    (infs : list nat) : outcome FitnessLoc :=
  match infs with
  | [] => Ok acc
  | j :: rest =>
      informant ← or_raise (ps !! j) IndexError;
      fl ← or_raise (fitness_loc informant) AttributeError;
      scan_informants ps (if FitnessLoc_lt acc fl then fl else acc) rest
  end.

(** The right-hand side of the assignment to [velocity[i]], its operands
    read from left to right. *)
Definition new_velocity_at (s : PSO) (particle : Particle)
    (prev_fittest_loc : option FitnessLoc)
    (prev_fittest_loc_informants : FitnessLoc)
    (velocity : list Q) (i : nat) (b c d : Q) : outcome Q :=
  v_i ← or_raise (velocity !! i) IndexError;
  pb ← or_raise prev_fittest_loc AttributeError;
  pb_i ← or_raise (location pb !! i) IndexError;
  x_i ← or_raise (position particle !! i) IndexError;
  ib_i ← or_raise (location prev_fittest_loc_informants !! i) IndexError;
  gb ← or_raise (best s) AttributeError;
  gb_i ← or_raise (location gb !! i) IndexError;
  Ok (alpha s * v_i + b * (pb_i - x_i) + c * (ib_i - x_i) + d * (gb_i - x_i))%Q.

(** [for i in range(len(self.search_dimension))], run on the local array
    [velocity] from generator position [rs].  Returns the outcome, the array
    (partially updated when an exception stopped the loop) and the new
    generator position. *)
Fixpoint velocity_loop (s : PSO) (particle : Particle)
    (prev_fittest_loc : option FitnessLoc)
    (prev_fittest_loc_informants : FitnessLoc)
    (range : list nat) (velocity : list Q) (rs : nat)
    : outcome unit * list Q * nat :=
  match range with
  | [] => (Ok tt, velocity, rs)
  | i :: rest =>
      let b := uniform 0 (beta s) (random rs) in
      let c := uniform 0 (gamma s) (random (rs + 1)) in
      let d := uniform 0 (delta s) (random (rs + 2)) in
      match new_velocity_at s particle prev_fittest_loc
              prev_fittest_loc_informants velocity i b c d with
      | Raise e => (Raise e, velocity, rs + 3)
      | Ok x =>
          velocity_loop s particle prev_fittest_loc
            prev_fittest_loc_informants rest (<[i:=x]> velocity) (rs + 3)
      end
  end.

(** Overwrite the last entry of a list: the entry appended to
    [velocity_list] is the very array the loop then updates in place. *)
Definition set_last {A} (x : A) (l : list A) : list A :=
  removelast l ++ [x].

Definition _update_particle_body (k : nat) : M unit :=
  particle ← get_particle k;
  let velocity0 := velocity particle in
  if negb (any_nonzero (velocity particle)) then mret tt
  else
    put_particle k (set_velocity_list (velocity_list particle ++ [velocity0]) particle);;
    ps ← get_particles;
    infs ← lift (or_raise (informants particle) TypeError);
    fittest_informant_loc ← lift (scan_informants ps sentinel_init infs);
    let prev_fittest_loc := personal_fittest_loc particle in
    let prev_fittest_loc_informants := fittest_informant_loc in
    dims ← get_search_dimension;
    s ← gets id;
    let '(r, velocity1, rs) :=
      velocity_loop s particle prev_fittest_loc prev_fittest_loc_informants
        (seq 0 (length dims)) velocity0 (random_state s) in
    modify (set_random_state rs);;
    particle1 ← get_particle k;
    put_particle k (set_velocity_list (set_last velocity1 (velocity_list particle1)) particle1);;
    lift r;;
    particle2 ← get_particle k;
    put_particle k (update_velocity velocity1 particle2).

Definition _update_particle : M unit :=
  for_particles _update_particle_body.

(** *** Phase 3: [_move_particles] *)

(** [d[0] <= x <= d[1]] *)
Definition in_bounds (d : Q * Q) (x : Q) : bool :=
  Qle_bool (fst d) x && Qle_bool x (snd d).

(** [for index, d in enumerate(self.search_dimension)], run on the local
    array [temp_position].  Under BOUNCE the statements after the [raise]
    are unreachable. *)
Fixpoint move_loop (policy : BoundaryPolicy) (pos : list Q) (index : nat)
    (dims : list (Q * Q)) (temp_position : list Q) (rs : nat)
    : outcome (list Q) * nat :=
  match dims with
  | [] => (Ok temp_position, rs)
  | d :: rest =>
      match temp_position !! index with
      | None => (Raise IndexError, rs)
      | Some t =>
          if in_bounds d t
          then move_loop policy pos (S index) rest temp_position rs
          else
            match policy with
            | BOUNCE => (Raise NotImplementedError, rs)
            | RANDOMREINIT =>
                move_loop policy pos (S index) rest
                  (<[index := uniform (fst d) (snd d) (random rs)]> temp_position)
                  (rs + 1)
            | REFUSE =>
                match pos !! index with
                | None => (Raise IndexError, rs)
                | Some x =>
                    move_loop policy pos (S index) rest
                      (<[index := x]> temp_position) rs
                end
            end
      end
  end.

Definition _move_particles_body (k : nat) : M unit :=
  particle ← get_particle k;
  if negb (any_nonzero (velocity particle)) then mret tt
  else
    eps ← gets epsilon;
    temp_position ← lift (np_add (position particle) (np_scale eps (velocity particle)));
    dims ← get_search_dimension;
    policy ← gets boundary_policy;
    rs ← gets random_state;
    let '(r, rs') := move_loop policy (position particle) 0 dims temp_position rs in
    modify (set_random_state rs');;
    temp_position' ← lift r;
    put_particle k (update_position temp_position' particle).

Definition _move_particles : M unit :=
  for_particles _move_particles_body.

(** *** Instantiation: [_instantiate_particles] *)

(** [[random.uniform(d[0], d[1]) for d in dims]] from generator position [rs]. *)
Fixpoint uniform_each (dims : list (Q * Q)) (rs : nat) : list Q :=
  match dims with
  | [] => []
  | d :: rest => uniform (fst d) (snd d) (random rs) :: uniform_each rest (S rs)
  end.

Definition _init_position : M (list Q) :=
  dims ← get_search_dimension;
  rs ← gets random_state;
  modify (set_random_state (rs + length dims));;
  mret (uniform_each dims rs).

Definition _init_velocity : M (list Q) :=
  dims ← get_search_dimension;
  rs ← gets random_state;
  modify (set_random_state (rs + length dims));;
  mret (uniform_each dims rs).

(** [np.random.choice(pool, size, replace=False)]: [size] draws from the
    pool, each drawn element leaving the pool.  numpy rejects a negative
    size and a size above the population. *)
Fixpoint choice_loop {A} (pool : list A) (size : nat) (ns : nat) : list A :=
  match size with
  | O => []
  | S size' =>
      let j := (np_random ns mod length pool)%nat in
      match pool !! j with
      | None => []
      | Some x => x :: choice_loop (delete j pool) size' (S ns)
      end
  end.

Definition np_random_choice {A} (pool : list A) (size : Z) (ns : nat)
    : outcome (list A) :=
  if (size <? 0)%Z then Raise ValueError
  else if (Z.of_nat (length pool) <? size)%Z then Raise ValueError
  else Ok (choice_loop pool (Z.to_nat size) ns).

(** The body of the loop of [_init_informants].  [np.where(... == particle)]
    compares objects by identity, so it finds the particle's own index, and
    [np.delete] removes that entry. *)
Definition _init_informants_body (k : nat) : M unit :=
  ps ← get_particles;
  let no_self := delete k (seq 0 (length ps)) in
  size ← gets num_informants;
  ns ← gets np_random_state;
  chosen ← lift (np_random_choice no_self size ns);
  modify (set_np_random_state (ns + Z.to_nat size));;
  particle ← get_particle k;
  put_particle k (set_informants chosen particle).

Definition _init_informants : M unit :=
  for_particles _init_informants_body.

(** [[Particle(self._init_position(), self._init_velocity(), self.fitness_fn)
    for _ in range(n)]] *)
Fixpoint new_particles (n : nat) : M (list Particle) :=
  match n with
  | O => mret []
  | S n' =>
      pos ← _init_position;
      vel ← _init_velocity;
      f ← gets pso_fitness_fn;
      rest ← new_particles n';
      mret (Particle_init pos vel f :: rest)
  end.

Definition _instantiate_particles : M unit :=
  f ← gets pso_fitness_fn;
  match f with
  | None => raise ValueError
  | Some _ =>
      n ← gets swarm_size;
      ps ← new_particles (Z.to_nat n);
      modify (set_particles (Some ps));;
      _init_informants
  end.

(** *** [run] *)

(** One pass of the body of the [while] loop of [run], up to the controller. *)
Definition sweep : M unit :=
  _pso_assess_fitness;;
  _update_particle;;
  _move_particles.

(** [self.best.fitness - self.previous_best.fitness] *)
Definition fitness_delta : M Q :=
  b ← gets best;
  pb ← gets previous_best;
  b' ← lift (or_raise b AttributeError);
  pb' ← lift (or_raise pb AttributeError);
  mret (fitness b' - fitness pb')%Q.

(** [while not controller.terminate: ...], unrolled at most [fuel] times. *)
Fixpoint run_loop (fuel : nat) (controller : TerminationPolicyManager)
    : M TerminationPolicyManager :=
  match fuel with
  | O => mret controller
  | S fuel' =>
      if terminate controller then mret controller
      else
        sweep;;
        fitness_delta;;
        run_loop fuel' (next_iteration controller)
  end.

(** The statements of [run] before the loop. *)
Definition run_prologue : M unit :=
  is_set ← gets search_dimension_set;
  if negb is_set then raise ValueError
  else
    _instantiate_particles;;
    modify (set_best (Some sentinel_run)).

Definition run : M (option FitnessLoc) :=
  run_prologue;;
  n ← gets max_iter;
  run_loop (Z.to_nat n) (mkController 0 n);;
  gets best.


(** *** The loop bodies on one particle *)

(** What the body of [_update_particle] does to a moving particle [p] of the
    swarm [ps]: the outcome, the particle afterwards and the position of the
    generator afterwards. *)
Definition update_one (s : PSO) (ps : list Particle) (p : Particle)
    : outcome unit * Particle * nat :=
  let p1 := set_velocity_list (velocity_list p ++ [velocity p]) p in
  match informants p with
  | None => (Raise TypeError, p1, random_state s)
  | Some infs =>
      match scan_informants ps sentinel_init infs with
      | Raise e => (Raise e, p1, random_state s)
      | Ok ib =>
          match search_dimension s with
          | None => (Raise TypeError, p1, random_state s)
          | Some dims =>
              let '(r, v1, rs) :=
                velocity_loop s p (personal_fittest_loc p) ib
                  (seq 0 (length dims)) (velocity p) (random_state s) in
              let p2 := set_velocity_list (velocity_list p ++ [v1]) p in
              match r with
              | Raise e => (Raise e, p2, rs)
              | Ok _ => (Ok tt, update_velocity v1 p2, rs)
              end
          end
      end
  end.

(** What the body of [_move_particles] does to a moving particle. *)
Definition move_one (s : PSO) (p : Particle) : outcome unit * Particle * nat :=
  match np_add (position p) (np_scale (epsilon s) (velocity p)) with
  | Raise e => (Raise e, p, random_state s)
  | Ok temp =>
      match search_dimension s with
      | None => (Raise TypeError, p, random_state s)
      | Some dims =>
          let '(r, rs) :=
            move_loop (boundary_policy s) (position p) 0 dims temp
              (random_state s) in
          match r with
          | Raise e => (Raise e, p, rs)
          | Ok temp' => (Ok tt, update_position temp' p, rs)
          end
      end
  end.

End Swarm.

(** ** Relations between the swarm before and after a method *)

(** A method [m] keeps the relation [R] when every call relates the state
    before to the state after, whether it returns or raises. *)
Definition keeps {A} (R : relation PSO) (m : M A) : Prop :=
  forall s, R s (snd (m s)).

(** The [k]-th particle object of the swarm, if any. *)
Definition particle_at (s : PSO) (k : nat) : option Particle :=
  ps ← particles s; ps !! k.

(** The swarm has the same particle objects before and after, each related
    to its former self by [P]. *)
Definition particles_rel (P : relation Particle) : relation PSO :=
  fun s s' => forall k, option_Forall2 P (particle_at s k) (particle_at s' k).

(** The fields a frozen particle keeps. *)
Definition same_motion (p p' : Particle) : Prop :=
  velocity p' = velocity p /\ position p' = position p /\
  fitness_loc p' = fitness_loc p /\
  personal_fittest_loc p' = personal_fittest_loc p.

(** A particle that is frozen keeps its velocity, position, fitness_loc and
    personal best. *)
Definition frozen_kept (p p' : Particle) : Prop :=
  any_nonzero (velocity p) = false -> same_motion p p'.

(** The fields the velocity update leaves alone. *)
Definition same_but_velocity (p p' : Particle) : Prop :=
  position p' = position p /\ fitness_loc p' = fitness_loc p /\
  personal_fittest_loc p' = personal_fittest_loc p /\
  informants p' = informants p /\ fitness_fn p' = fitness_fn p.

(** The informants of a particle are the same. *)
Definition same_informants (p p' : Particle) : Prop :=
  informants p' = informants p.

(** The configuration of the optimiser is the same. *)
Definition same_settings (s s' : PSO) : Prop :=
  swarm_size s' = swarm_size s /\ boundary s' = boundary s /\
  alpha s' = alpha s /\ beta s' = beta s /\ gamma s' = gamma s /\
  delta s' = delta s /\ epsilon s' = epsilon s /\
  boundary_policy s' = boundary_policy s /\ max_iter s' = max_iter s /\
  search_dimension s' = search_dimension s /\
  search_dimension_set s' = search_dimension_set s /\
  num_informants s' = num_informants s /\
  pso_fitness_fn s' = pso_fitness_fn s.

(** The swarm-wide best and previous best are the same. *)
Definition same_best (s s' : PSO) : Prop :=
  best s' = best s /\ previous_best s' = previous_best s.

(** The fitness of the swarm-wide best does not decrease. *)
Definition best_not_worse (s s' : PSO) : Prop :=
  forall b, best s = Some b ->
    exists b', best s' = Some b' /\ (fitness b <= fitness b')%Q.

(** The position of a particle is the same. *)
Definition same_position (p p' : Particle) : Prop := position p' = position p.

(** A method preserves the invariant [J]. *)
Definition preserves (J : PSO -> Prop) : relation PSO :=
  fun s s' => J s -> J s'.

(** ** Bounds *)

(** [x] lies in the interval of the bound pair [d]. *)
Definition within (d : Q * Q) (x : Q) : Prop :=
  (fst d <= x)%Q /\ (x <= snd d)%Q.

(** The bound pair has [low <= high]. *)
Definition ordered (d : Q * Q) : Prop := (fst d <= snd d)%Q.

(** Every coordinate of the position lies within the bounds of its
    dimension, and the velocity has one component per dimension. *)
Definition in_range (dims : list (Q * Q)) (p : Particle) : Prop :=
  Forall2 (fun x d => within d x) (position p) dims /\
  length (velocity p) = length dims.

Definition all_particles (I : Particle -> Prop) (s : PSO) : Prop :=
  forall k p, particle_at s k = Some p -> I p.

(** The invariant of the move phase under RANDOMREINIT and REFUSE. *)
Definition swarm_in_range (dims : list (Q * Q)) (s : PSO) : Prop :=
  search_dimension s = Some dims /\ boundary_policy s <> BOUNCE /\
  Forall ordered dims /\ all_particles (in_range dims) s.

(** Position kept, velocity of the same length. *)
Definition same_shape (p p' : Particle) : Prop :=
  position p' = position p /\ length (velocity p') = length (velocity p).

(** ** A zero jump size *)

(** The position is numerically the same, coordinate by coordinate, and the
    velocity has the same length. *)
Definition same_place (p p' : Particle) : Prop :=
  Forall2 Qeq (position p') (position p) /\
  length (velocity p') = length (velocity p).

(** Position and velocity have one component per dimension, and either the
    policy is REFUSE or the position lies within the bounds. *)
Definition settled (policy : BoundaryPolicy) (dims : list (Q * Q)) (p : Particle) : Prop :=
  length (position p) = length dims /\ length (velocity p) = length dims /\
  (policy = REFUSE \/ Forall2 (fun x d => within d x) (position p) dims).

Definition swarm_settled (policy : BoundaryPolicy) (dims : list (Q * Q)) (s : PSO) : Prop :=
  search_dimension s = Some dims /\ (epsilon s == 0)%Q /\
  boundary_policy s = policy /\ all_particles (settled policy dims) s.

(** The swarm stays settled and no particle leaves its place. *)
Definition stays_put (policy : BoundaryPolicy) (dims : list (Q * Q)) : relation PSO :=
  fun s s' => swarm_settled policy dims s ->
    swarm_settled policy dims s' /\ particles_rel same_place s s'.

(** ** Inverted bounds *)

(** The bound pair has [low > high]. *)
Definition inverted (d : Q * Q) : Prop := (snd d < fst d)%Q.

(** Position and velocity have one component per dimension. *)
Definition shaped (dims : list (Q * Q)) (p : Particle) : Prop :=
  length (position p) = length dims /\ length (velocity p) = length dims.

Definition swarm_refusing (dims : list (Q * Q)) (s : PSO) : Prop :=
  search_dimension s = Some dims /\ boundary_policy s = REFUSE /\
  all_particles (shaped dims) s.

(** Under REFUSE with inverted bounds no particle moves. *)
Definition holds_still (dims : list (Q * Q)) : relation PSO :=
  fun s s' => swarm_refusing dims s ->
    swarm_refusing dims s' /\ particles_rel same_shape s s'.

(** ** The move phase under BOUNCE *)

(** [position + epsilon * velocity] for vectors of equal length. *)
Definition candidate (eps : Q) (p : Particle) : list Q :=
  zip_with Qplus (position p) (np_scale eps (velocity p)).

(** Every coordinate passes the in-bounds test of its dimension. *)
Definition fits (dims : list (Q * Q)) (xs : list Q) : bool :=
  forallb (fun dx => in_bounds (fst dx) (snd dx)) (zip dims xs).

(** The move phase under BOUNCE, in the words of the amended claim: in swarm
    order, a frozen particle is skipped, a moving particle whose candidate
    fits the bounds moves to its candidate, and the first moving particle
    whose candidate does not fit stops the phase with [NotImplementedError],
    itself and all later particles left where they were. *)
Fixpoint bounce_all (eps : Q) (dims : list (Q * Q)) (todo : list Particle)
    : outcome unit * list Particle :=
  match todo with
  | [] => (Ok tt, [])
  | p :: rest =>
      if negb (any_nonzero (velocity p))
      then let '(r, rest') := bounce_all eps dims rest in (r, p :: rest')
      else if fits dims (candidate eps p)
      then let '(r, rest') := bounce_all eps dims rest in
           (r, update_position (candidate eps p) p :: rest')
      else (Raise NotImplementedError, p :: rest)
  end.

(** ** The informant topology *)

(** The informants of the [k]-th particle of a swarm of [n]: exactly [size]
    distinct particles of the swarm, none of them the particle itself. *)
Definition wired (n : nat) (size : Z) (k : nat) (p : Particle) : Prop :=
  exists infs,
    informants p = Some infs /\ Z.of_nat (length infs) = size /\
    NoDup infs /\ (k ∉ infs) /\ (forall j, j ∈ infs -> j < n).

(** The invariant of the loop of [_init_informants] before its [k]-th pass. *)
Definition wired_up_to (n : nat) (size : Z) (k : nat) (s : PSO) : Prop :=
  num_informants s = size /\
  exists ps, particles s = Some ps /\ length ps = n /\
    forall j p, j < k -> ps !! j = Some p -> wired n size j p.

(** ** The velocity update *)

(** The informant best in the words of the specification: the FitnessLoc
    with the greatest fitness among the informants, the first found among
    equals. *)
Fixpoint first_fittest (fls : list FitnessLoc) : option FitnessLoc :=
  match fls with
  | [] => None
  | fl :: rest =>
      match first_fittest rest with
      | None => Some fl
      | Some m => if Qlt_bool (fitness fl) (fitness m) then Some m else Some fl
      end
  end.

(** The FitnessLocs of the informants, in the order of the informant set;
    [None] when some informant was never assessed. *)
Fixpoint informant_locs (ps : list Particle) (infs : list nat)
    : option (list FitnessLoc) :=
  match infs with
  | [] => Some []
  | j :: rest =>
      match ps !! j ≫= fitness_loc, informant_locs ps rest with
      | Some fl, Some fls => Some (fl :: fls)
      | _, _ => None
      end
  end.

Definition informant_best (ps : list Particle) (p : Particle) : option FitnessLoc :=
  infs ← informants p; fls ← informant_locs ps infs; first_fittest fls.

(** The number of moving particles among the first [k] of the swarm. *)
Definition moving_before (ps : list Particle) (k : nat) : nat :=
  length (List.filter (fun p => any_nonzero (velocity p)) (take k ps)).

Section VelocityFormula.
Variable random : nat -> Q.

(** The new velocity component of dimension [i], from the old component
    [v_i] and the three draws taken from generator position [r]. *)
Definition velocity_formula (s : PSO) (p : Particle) (pb ib gb : FitnessLoc)
    (i : nat) (v_i : Q) (r : nat) : Q :=
  (alpha s * v_i
   + uniform 0 (beta s) (random r)
     * (nth i (location pb) 0 - nth i (position p) 0)
   + uniform 0 (gamma s) (random (r + 1))
     * (nth i (location ib) 0 - nth i (position p) 0)
   + uniform 0 (delta s) (random (r + 2))
     * (nth i (location gb) 0 - nth i (position p) 0))%Q.

(** The new velocity vector of a particle whose update starts at generator
    position [rs]: dimension [i] uses the draws [rs + 3 i], [rs + 3 i + 1]
    and [rs + 3 i + 2]. *)
Definition new_velocity (s : PSO) (p : Particle) (pb ib gb : FitnessLoc)
    (rs : nat) : list Q :=
  imap (fun i v_i => velocity_formula s p pb ib gb i v_i (rs + 3 * i)) (velocity p).

End VelocityFormula.

(** The generator position at which the update of the [k]-th particle
    starts: three draws per dimension for each moving particle before it. *)
Definition draw_offset (s : PSO) (ps : list Particle) (dims : list (Q * Q))
    (k : nat) : nat :=
  random_state s + 3 * length dims * moving_before ps k.

(** A moving particle is ready for its velocity update: vectors of one
    component per dimension, a personal best, and informants that have all
    been assessed. *)
Definition assessed (dims : list (Q * Q)) (ps : list Particle) (p : Particle)
    (pb ib : FitnessLoc) : Prop :=
  length (position p) = length dims /\ length (velocity p) = length dims /\
  personal_fittest_loc p = Some pb /\ length (location pb) = length dims /\
  informant_best ps p = Some ib /\ length (location ib) = length dims.

(** The informant best beats the sentinel the scan starts from. *)
Definition beats_sentinel (ib : FitnessLoc) : Prop :=
  (fitness sentinel_init < fitness ib)%Q.

(** Every moving particle of the swarm is ready for its update and its
    informant best beats the sentinel. *)
Definition all_ready (dims : list (Q * Q)) (ps : list Particle) : Prop :=
  forall j p, ps !! j = Some p -> any_nonzero (velocity p) = true ->
    exists pb ib, assessed dims ps p pb ib /\ beats_sentinel ib.

(** The invariant of the loop of [_update_particle] before its [k]-th pass,
    started from the optimiser [s0] with swarm [ps]: the particles from [k]
    on are as they were, the moving ones before [k] carry their new
    velocity, the frozen ones before [k] are untouched, and the generator
    stands at [draw_offset s0 ps dims k]. *)
Definition updated_up_to (random : nat -> Q) (s0 : PSO) (ps : list Particle)
    (dims : list (Q * Q)) (gb : FitnessLoc) (k : nat) (s : PSO) : Prop :=
  same_settings s0 s /\ best s = Some gb /\
  random_state s = draw_offset s0 ps dims k /\
  exists ps', particles s = Some ps' /\ length ps' = length ps /\
    (forall j, k <= j -> ps' !! j = ps !! j) /\
    (forall j p, j < k -> ps !! j = Some p ->
       exists p', ps' !! j = Some p' /\ same_but_velocity p p' /\
         (any_nonzero (velocity p) = false -> p' = p) /\
         (any_nonzero (velocity p) = true ->
          forall pb ib, assessed dims ps p pb ib ->
            velocity p'
            = new_velocity random s0 p pb ib gb (draw_offset s0 ps dims j))).

(** ** Between runs *)

(** The previous best is the same. *)
Definition same_previous_best (s s' : PSO) : Prop :=
  previous_best s' = previous_best s.

(** ** Relations for the further properties *)

(** The personal best is kept, or replaced by a strictly fitter one. *)
Definition personal_not_worse (p p' : Particle) : Prop :=
  forall pb, personal_fittest_loc p = Some pb ->
    exists pb', personal_fittest_loc p' = Some pb' /\
      (pb' = pb \/ (fitness pb < fitness pb')%Q).

(** Everything but the informants is the same. *)
Definition same_but_informants (p p' : Particle) : Prop :=
  position p' = position p /\ velocity p' = velocity p /\
  fitness_loc p' = fitness_loc p /\ fitness_fn p' = fitness_fn p /\
  personal_fittest_loc p' = personal_fittest_loc p /\
  velocity_list p' = velocity_list p.

(** ** The assessment phase *)

(** The particle [p'] is the particle [p] assessed where it stands: its
    fitness_loc is the FitnessLoc of its position, its personal best and
    the swarm-wide best of [s'] are at least as fit. *)
Definition freshly_assessed (s' : PSO) (p p' : Particle) : Prop :=
  exists f gb pb,
    fitness_fn p = Some f /\
    fitness_loc p' = Some (mkFitnessLoc (position p) (f (position p))) /\
    position p' = position p /\ velocity p' = velocity p /\
    personal_fittest_loc p' = Some pb /\ (f (position p) <= fitness pb)%Q /\
    best s' = Some gb /\ (f (position p) <= fitness gb)%Q.

(** The invariant of the loop of [_pso_assess_fitness] before its [k]-th
    pass over the swarm [ps]. *)
Definition assessed_up_to (ps : list Particle) (k : nat) (s' : PSO) : Prop :=
  exists ps', particles s' = Some ps' /\ length ps' = length ps /\
    (forall j, k <= j -> ps' !! j = ps !! j) /\
    (forall j p, j < k -> ps !! j = Some p -> any_nonzero (velocity p) = true ->
       exists p', ps' !! j = Some p' /\ freshly_assessed s' p p').

(** ** The move phase, dimension by dimension *)

(** The number of coordinates that fail the in-bounds test of their
    dimension. *)
Fixpoint misfits (dims : list (Q * Q)) (xs : list Q) : nat :=
  match dims, xs with
  | d :: dims', x :: xs' => (if in_bounds d x then 0 else 1) + misfits dims' xs'
  | _, _ => 0
  end.

(** ** Instantiation *)

(** A particle as [Particle.__init__] leaves it, the [k]-th of a swarm whose
    creation starts at generator position [rs]: position and velocity are
    drawn one after the other, dimension by dimension. *)
Definition fresh_particle (random : nat -> Q) (dims : list (Q * Q))
    (f : option (list Q -> Q)) (rs k : nat) : Particle :=
  Particle_init
    (uniform_each random dims (rs + 2 * length dims * k))
    (uniform_each random dims (rs + 2 * length dims * k + length dims))
    f.

(** Wiring the topology touches the informants and numpy's generator only. *)
Definition same_outside_topology (s s' : PSO) : Prop :=
  same_settings s s' /\ random_state s' = random_state s /\
  best s' = best s /\ previous_best s' = previous_best s /\
  particles_rel same_but_informants s s'.

(** ** Searching the hyperparameters: [decode_vec], [dimension_vec],
    [evaluate_fitness] *)

(** Python's [round(x)] to an [int]: to the nearest integer, a tie going to
    the even one. *)
Definition py_round (x : Q) : Z :=
  let f := Qfloor x in
  let r := (x - inject_Z f)%Q in
  if Qlt_bool r (1 # 2) then f
  else if Qlt_bool (1 # 2) r then (f + 1)%Z
  else if Z.even f then f else (f + 1)%Z.

Definition set_swarm_size (n : Z) (s : PSO) : PSO :=
  mkPSO n (boundary s) (alpha s) (beta s) (gamma s) (delta s)
    (epsilon s) (boundary_policy s) (max_iter s) (search_dimension s)
    (search_dimension_set s) (best s) (previous_best s) (particles s)
    (num_informants s) (pso_fitness_fn s) (random_state s) (np_random_state s).

Definition set_num_informants (n : Z) (s : PSO) : PSO :=
  mkPSO (swarm_size s) (boundary s) (alpha s) (beta s) (gamma s) (delta s)
    (epsilon s) (boundary_policy s) (max_iter s) (search_dimension s)
    (search_dimension_set s) (best s) (previous_best s) (particles s)
    n (pso_fitness_fn s) (random_state s) (np_random_state s).

Definition set_alpha (x : Q) (s : PSO) : PSO :=
  mkPSO (swarm_size s) (boundary s) x (beta s) (gamma s) (delta s)
    (epsilon s) (boundary_policy s) (max_iter s) (search_dimension s)
    (search_dimension_set s) (best s) (previous_best s) (particles s)
    (num_informants s) (pso_fitness_fn s) (random_state s) (np_random_state s).

Definition set_beta (x : Q) (s : PSO) : PSO :=
  mkPSO (swarm_size s) (boundary s) (alpha s) x (gamma s) (delta s)
    (epsilon s) (boundary_policy s) (max_iter s) (search_dimension s)
    (search_dimension_set s) (best s) (previous_best s) (particles s)
    (num_informants s) (pso_fitness_fn s) (random_state s) (np_random_state s).

Definition set_gamma (x : Q) (s : PSO) : PSO :=
  mkPSO (swarm_size s) (boundary s) (alpha s) (beta s) x (delta s)
    (epsilon s) (boundary_policy s) (max_iter s) (search_dimension s)
    (search_dimension_set s) (best s) (previous_best s) (particles s)
    (num_informants s) (pso_fitness_fn s) (random_state s) (np_random_state s).

Definition set_delta (x : Q) (s : PSO) : PSO :=
  mkPSO (swarm_size s) (boundary s) (alpha s) (beta s) (gamma s) x
    (epsilon s) (boundary_policy s) (max_iter s) (search_dimension s)
    (search_dimension_set s) (best s) (previous_best s) (particles s)
    (num_informants s) (pso_fitness_fn s) (random_state s) (np_random_state s).

Definition set_epsilon (x : Q) (s : PSO) : PSO :=
  mkPSO (swarm_size s) (boundary s) (alpha s) (beta s) (gamma s) (delta s)
    x (boundary_policy s) (max_iter s) (search_dimension s)
    (search_dimension_set s) (best s) (previous_best s) (particles s)
    (num_informants s) (pso_fitness_fn s) (random_state s) (np_random_state s).

(** [vec[i]] *)
Definition vec_at (vec : list Q) (i : nat) : M Q :=
  lift (or_raise (vec !! i) IndexError).

(** [PSO.decode_vec]: the seven assignments in the order of the source. *)
Definition decode_vec (vec : list Q) : M unit :=
  v0 ← vec_at vec 0; modify (set_swarm_size (py_round v0));;
  v1 ← vec_at vec 1; modify (set_num_informants (py_round v1));;
  v2 ← vec_at vec 2; modify (set_alpha v2);;
  v3 ← vec_at vec 3; modify (set_beta v3);;
  v4 ← vec_at vec 4; modify (set_gamma v4);;
  v5 ← vec_at vec 5; modify (set_delta v5);;
  v6 ← vec_at vec 6; modify (set_epsilon v6).

(** [PSO.dimension_vec] *)
Definition dimension_vec : list (Q * Q) :=
  [ (10, 100); (4, 8); (1 # 100, 2); (1 # 100, 2); (1 # 100, 2);
    (1 # 100, 2); (1 # 100, 2) ]%Q.

(** [np.mean] of a list; [None] stands for the [nan] numpy returns on an
    empty list. *)
Definition np_mean (l : list Q) : option Q :=
  match l with
  | [] => None
  | _ => Some (fold_right Qplus 0 l / inject_Z (Z.of_nat (length l)))%Q
  end.

Section EvaluateFitness.
Variable random : nat -> Q.
Variable np_random : nat -> nat.

(** The loop of [evaluate_fitness]: [n] more runs, each appending
    [self.best.fitness] to [fitness_list]. *)
Fixpoint evaluate_runs (n : nat) (fitness_list : list Q) : M (list Q) :=
  match n with
  | O => mret fitness_list
  | S n' =>
      run random np_random;;
      b ← gets best;
      fl ← lift (or_raise b AttributeError);
      evaluate_runs n' (fitness_list ++ [fitness fl])
  end.

(** [PSO.evaluate_fitness]; [num_runs] is the field [self.num_runs], which
    the record [PSO] leaves out. *)
Definition evaluate_fitness (num_runs : Z) (vec : list Q) : M (option Q) :=
  decode_vec vec;;
  fitness_list ← evaluate_runs (Z.to_nat num_runs) [];
  mret (np_mean fitness_list).

End EvaluateFitness.

(** Everything but the seven hyperparameters that [decode_vec] assigns. *)
Definition same_but_hyperparameters (s s' : PSO) : Prop :=
  boundary s' = boundary s /\ boundary_policy s' = boundary_policy s /\
  max_iter s' = max_iter s /\ search_dimension s' = search_dimension s /\
  search_dimension_set s' = search_dimension_set s /\
  best s' = best s /\ previous_best s' = previous_best s /\
  particles s' = particles s /\ pso_fitness_fn s' = pso_fitness_fn s /\
  random_state s' = random_state s /\ np_random_state s' = np_random_state s.

(** ** Concrete swarms *)

Module Demo.

(** [f(x) = -x[0]^2], the fitness function of the end-to-end scenario of the
    specification. *)
Definition neg_square (x : list Q) : Q := (- (hd 0 x * hd 0 x))%Q.

(** A fitness function with a pit below the sentinel [-999999] at
    [x[0] = 0], and [-x[0]^2] elsewhere. *)
Definition pit (x : list Q) : Q :=
  if Qeq_bool (hd 0%Q x) 0 then (-1000000)%Q else (- (hd 0 x * hd 0 x))%Q.

(** Generator streams: every draw is one half; draws alternate between one
    quarter and three quarters; draws cycle through one quarter, three
    quarters and one half. *)
Definition half (n : nat) : Q := (1 # 2)%Q.
Definition quarters (n : nat) : Q := if Nat.even n then (1 # 4)%Q else (3 # 4)%Q.
Definition thirds (n : nat) : Q :=
  match n mod 3 with
  | 0 => (1 # 4)%Q
  | 1 => (3 # 4)%Q
  | _ => (1 # 2)%Q
  end.
Definition np_count (n : nat) : nat := n.

(** A one-dimensional swarm of two particles, the first of them frozen. *)
Definition still : Particle :=
  mkParticle [1 # 2]%Q [0]%Q None (Some neg_square) None None (Some [1]) [].
Definition mover : Particle :=
  mkParticle [0]%Q [1 # 4]%Q None (Some neg_square) None None (Some [0]) [].

Definition swarm (policy : BoundaryPolicy) (bound : Q * Q) (eps : Q) : PSO :=
  mkPSO 2 bound 1 1 1 1 eps policy 1
    (Some [bound]) true (Some sentinel_run) (Some sentinel_init)
    (Some [still; mover]) 1 (Some neg_square) 0 0.

(** An optimiser configured as by
    [PSO(swarm_size, num_informants, bound, 1, 1, 1, 1, eps, policy, max_iter)],
    [set_fitness_fn(f)] and [set_search_dimensions(1)]. *)
Definition configured (swarm_size num_informants : Z) (bound : Q * Q) (eps : Q)
    (policy : BoundaryPolicy) (max_iter : Z) (f : list Q -> Q) : PSO :=
  snd ((PSO_set_fitness_fn f;; set_search_dimensions (DimInt 1))
         (PSO_init swarm_size num_informants bound 1 1 1 1 eps policy max_iter)).

End Demo.

Module Scenario.

(** The default configuration of the bounds and of the boundary policy, a
    zero jump size, two particles with one informant each, one dimension:
    the optimiser after the statements of [run] that precede the loop, and
    after the assessment and the velocity update of the first iteration. *)
Definition zero_jump : PSO :=
  Demo.configured 2 1 default_bound 0 RANDOMREINIT 1 Demo.neg_square.

Definition zero_jump_started : PSO :=
  snd (run_prologue Demo.quarters Demo.np_count zero_jump).

Definition zero_jump_before_move : PSO :=
  snd ((_pso_assess_fitness;; _update_particle Demo.quarters) zero_jump_started).

(** BOUNCE on the bounds [(-1, 1)] with a jump size of [3/2]: after the
    statements of [run] that precede the loop, and after the assessment and
    the velocity update of the first iteration. *)
Definition bounce : PSO :=
  Demo.configured 2 1 (-1, 1)%Q (3 # 2) BOUNCE 1 Demo.neg_square.

Definition bounce_started : PSO :=
  snd (run_prologue Demo.thirds Demo.np_count bounce).

Definition bounce_before_move : PSO :=
  snd ((_pso_assess_fitness;; _update_particle Demo.thirds) bounce_started).

(** BOUNCE with a jump size of [1]: no candidate leaves the bounds. *)
Definition bounce_short : PSO :=
  Demo.configured 2 1 (-1, 1)%Q 1 BOUNCE 1 Demo.neg_square.

(** Two particles on the bounds [(-1, 1)], one informant each, after the
    statements of [run] that precede the loop and the assessment of the
    first iteration: with the fitness [-x^2], and with the fitness [pit],
    under which the second particle, at [x = 0], scores [-1000000]. *)
Definition assessed : PSO :=
  snd (_pso_assess_fitness
         (snd (run_prologue Demo.thirds Demo.np_count
                 (Demo.configured 2 1 (-1, 1)%Q 1 RANDOMREINIT 1 Demo.neg_square)))).

Definition pit_assessed : PSO :=
  snd (_pso_assess_fitness
         (snd (run_prologue Demo.thirds Demo.np_count
                 (Demo.configured 2 1 (-1, 1)%Q 1 RANDOMREINIT 1 Demo.pit)))).

(** An optimiser on which [run()] has completed once. *)
Definition after_first_run : PSO :=
  snd (run Demo.thirds Demo.np_count
         (Demo.configured 2 1 (-1, 1)%Q 1 RANDOMREINIT 1 Demo.neg_square)).

End Scenario.

(** ** Reasoning about methods *)

Section Keeps.
Context (R : relation PSO) `{!PreOrder R}.

Lemma keeps_ret {A} (a : A) : keeps R (mret a).
Proof. intros s. reflexivity. Qed.

Lemma keeps_raise {A} (e : exn) : keeps R (@raise A e).
Proof. intros s. reflexivity. Qed.

Lemma keeps_gets {A} (f : PSO -> A) : keeps R (gets f).
Proof. intros s. reflexivity. Qed.

Lemma keeps_lift {A} (o : outcome A) : keeps R (lift o).
Proof. intros s. reflexivity. Qed.

Lemma keeps_modify (f : PSO -> PSO) : (forall s, R s (f s)) -> keeps R (modify f).
Proof. intros H s. apply H. Qed.

Lemma keeps_bind {A B} (m : M A) (f : A -> M B) :
  keeps R m -> (forall a, keeps R (f a)) -> keeps R (m ≫= f).
Proof.
  intros Hm Hf s. unfold mbind, M_bind.
  specialize (Hm s). destruct (m s) as [[a|e] s']; simpl in *.
  - etransitivity; [exact Hm | apply Hf].
  - exact Hm.
Qed.

Lemma keeps_for_each {X} (body : X -> M unit) (xs : list X) :
  (forall x, keeps R (body x)) -> keeps R (for_each xs body).
Proof.
  intros Hb. induction xs as [|x xs IH]; simpl.
  - apply keeps_ret.
  - apply keeps_bind; [apply Hb | intros ?; exact IH].
Qed.

Lemma keeps_for_particles (body : nat -> M unit) :
  (forall k, keeps R (body k)) -> keeps R (for_particles body).
Proof.
  intros Hb. unfold for_particles, get_particles.
  apply keeps_bind.
  - apply keeps_bind; [apply keeps_gets | intros ?; apply keeps_lift].
  - intros ps. apply keeps_for_each, Hb.
Qed.

End Keeps.

(** ** Normal forms of the loop bodies *)

Ltac run_monad :=
  unfold get_particle, put_particle, get_particles, get_search_dimension,
    mbind, M_bind, mret, M_ret, gets, lift, modify, raise, or_raise; simpl.

Section Bodies.
Variable random : nat -> Q.

Lemma _pso_assess_fitness_body_unfold k s :
  _pso_assess_fitness_body k s =
  match particles s with
  | None => (Raise TypeError, s)
  | Some ps =>
      match ps !! k with
      | None => (Raise IndexError, s)
      | Some p =>
          if negb (any_nonzero (velocity p)) then (Ok tt, s)
          else
            let s1 := set_particles (Some (<[k := snd (assess_fitness p)]> ps)) s in
            match fst (assess_fitness p) with
            | Raise e => (Raise e, s1)
            | Ok fl =>
                if match best s with
                   | None => true
                   | Some b' => FitnessLoc_gt fl b'
                   end
                then (Ok tt, set_best (Some fl) (set_previous_best (best s) s1))
                else (Ok tt, s1)
            end
      end
  end.
Proof.
  unfold _pso_assess_fitness_body, call_assess_fitness. run_monad.
  destruct (particles s) as [ps|] eqn:Hps; [|reflexivity].
  destruct (ps !! k) as [p|] eqn:Hp; [|reflexivity].
  destruct (negb (any_nonzero (velocity p))); [reflexivity|].
  rewrite Hps, Hp. simpl.
  destruct (assess_fitness p) as [[fl|e] p'] eqn:Ha; simpl; rewrite ?Hps; simpl.
  - destruct (best s) as [b'|]; [destruct (FitnessLoc_gt fl b')|]; reflexivity.
  - reflexivity.
Qed.

Lemma new_velocity_at_set_particles x s p pb ib v i b c d :
  new_velocity_at (set_particles x s) p pb ib v i b c d =
  new_velocity_at s p pb ib v i b c d.
Proof. reflexivity. Qed.

Lemma velocity_loop_set_particles x s p pb ib range v rs :
  velocity_loop random (set_particles x s) p pb ib range v rs =
  velocity_loop random s p pb ib range v rs.
Proof.
  revert v rs. induction range as [|i range IH]; intros v rs; simpl; [reflexivity|].
  rewrite new_velocity_at_set_particles.
  destruct (new_velocity_at _ _ _ _ _ _ _ _ _); [apply IH | reflexivity].
Qed.

Lemma scan_informants_ext ps ps' acc infs :
  (forall j, fitness_loc <$> ps' !! j = fitness_loc <$> ps !! j) ->
  scan_informants ps' acc infs = scan_informants ps acc infs.
Proof.
  intros H. revert acc. induction infs as [|j infs IH]; intros acc; simpl; [reflexivity|].
  specialize (H j).
  destruct (ps' !! j) as [q'|], (ps !! j) as [q|]; simpl in *; try discriminate; [|reflexivity].
  injection H as ->. destruct (fitness_loc q); simpl; [apply IH | reflexivity].
Qed.

Lemma fitness_loc_insert_same (ps : list Particle) k p p' j :
  ps !! k = Some p -> fitness_loc p' = fitness_loc p ->
  fitness_loc <$> <[k:=p']> ps !! j = fitness_loc <$> ps !! j.
Proof.
  intros Hk Hf. destruct (decide (k = j)) as [->|Hne].
  - rewrite list_lookup_insert_eq by (eapply lookup_lt_Some; eauto).
    rewrite Hk. simpl. congruence.
  - rewrite list_lookup_insert_ne by done. reflexivity.
Qed.

Lemma set_last_snoc {A} (l : list A) (x y : A) : set_last y (l ++ [x]) = l ++ [y].
Proof. unfold set_last. rewrite removelast_last. reflexivity. Qed.

Lemma _update_particle_body_unfold k s :
  _update_particle_body random k s =
  match particles s with
  | None => (Raise TypeError, s)
  | Some ps =>
      match ps !! k with
      | None => (Raise IndexError, s)
      | Some p =>
          if negb (any_nonzero (velocity p)) then (Ok tt, s)
          else
            let '(r, p', rs) := update_one random s ps p in
            (r, set_random_state rs (set_particles (Some (<[k:=p']> ps)) s))
      end
  end.
Proof.
  unfold _update_particle_body, update_one. run_monad.
  destruct (particles s) as [ps|] eqn:Hps; [|reflexivity].
  destruct (ps !! k) as [p|] eqn:Hp; [|reflexivity].
  destruct (negb (any_nonzero (velocity p))); [reflexivity|].
  assert (Hlt : k < length ps) by (eapply lookup_lt_Some; eauto).
  rewrite Hps. simpl.
  set (p1 := set_velocity_list (velocity_list p ++ [velocity p]) p).
  destruct (informants p) as [infs|] eqn:Hinf; simpl;
    [|destruct s; simpl in *; reflexivity].
  rewrite (scan_informants_ext ps (<[k:=p1]> ps))
    by (intros j; apply fitness_loc_insert_same with p; done).
  destruct (scan_informants ps sentinel_init infs) as [ib|e]; simpl;
    [|destruct s; simpl in *; reflexivity].
  destruct (search_dimension s) as [dims|] eqn:Hd; simpl;
    [|destruct s; simpl in *; reflexivity].
  rewrite velocity_loop_set_particles.
  destruct (velocity_loop _ _ _ _ _ _ _ _) as [[r v1] rs]. simpl.
  rewrite list_lookup_insert_eq by done. simpl.
  rewrite list_insert_insert_eq. unfold p1 at 1. simpl. rewrite set_last_snoc.
  destruct r as [[]|e]; simpl.
  - rewrite list_lookup_insert_eq by done. simpl.
    rewrite list_insert_insert_eq. destruct s; reflexivity.
  - destruct s; reflexivity.
Qed.

Lemma _move_particles_body_unfold k s :
  _move_particles_body random k s =
  match particles s with
  | None => (Raise TypeError, s)
  | Some ps =>
      match ps !! k with
      | None => (Raise IndexError, s)
      | Some p =>
          if negb (any_nonzero (velocity p)) then (Ok tt, s)
          else
            let '(r, p', rs) := move_one random s p in
            (r, set_random_state rs (set_particles (Some (<[k:=p']> ps)) s))
      end
  end.
Proof.
  unfold _move_particles_body, move_one. run_monad.
  destruct (particles s) as [ps|] eqn:Hps; [|reflexivity].
  destruct (ps !! k) as [p|] eqn:Hp; [|reflexivity].
  destruct (negb (any_nonzero (velocity p))); [reflexivity|].
  destruct (np_add _ _) as [temp|e]; simpl;
    [|rewrite list_insert_id by done; destruct s; simpl in *; subst; reflexivity].
  destruct (search_dimension s) as [dims|] eqn:Hd; simpl;
    [|rewrite list_insert_id by done; destruct s; simpl in *; subst; reflexivity].
  destruct (move_loop _ _ _ _ _ _ _) as [[temp'|e] rs]; simpl.
  - rewrite Hps. simpl. destruct s; reflexivity.
  - rewrite list_insert_id by done. destruct s; simpl in *; subst; reflexivity.
Qed.

End Bodies.

(** ** The relations are preorders *)

#[export] Instance particles_rel_preorder P `{!PreOrder P} : PreOrder (particles_rel P).
Proof.
  split.
  - intros s k. reflexivity.
  - intros s1 s2 s3 H12 H23 k. etransitivity; [apply H12 | apply H23].
Qed.

Lemma particles_rel_lookup P s s' k p :
  particles_rel P s s' -> particle_at s k = Some p ->
  exists p', particle_at s' k = Some p' /\ P p p'.
Proof.
  intros H Hp. specialize (H k). rewrite Hp in H. inversion H; subst. eauto.
Qed.

Lemma particles_rel_lookup_r P s s' k p' :
  particles_rel P s s' -> particle_at s' k = Some p' ->
  exists p, particle_at s k = Some p /\ P p p'.
Proof.
  intros H Hp. specialize (H k). rewrite Hp in H. inversion H; subst. eauto.
Qed.

Lemma particles_rel_insert P `{!Reflexive P} s s' ps k p p' :
  particles s = Some ps -> ps !! k = Some p ->
  particles s' = Some (<[k:=p']> ps) -> P p p' ->
  particles_rel P s s'.
Proof.
  intros Hps Hk Hps' HP j. unfold particle_at. rewrite Hps, Hps'. simpl.
  destruct (decide (k = j)) as [->|Hne].
  - rewrite list_lookup_insert_eq by (eapply lookup_lt_Some; eauto).
    rewrite Hk. by constructor.
  - rewrite list_lookup_insert_ne by done. reflexivity.
Qed.

#[export] Instance preserves_preorder J : PreOrder (preserves J).
Proof. split; [intros s H; exact H | intros s1 s2 s3 H1 H2 H; auto]. Qed.

#[export] Instance same_shape_preorder : PreOrder same_shape.
Proof.
  split; [intros p; split; reflexivity|].
  intros p1 p2 p3 [] []. split; congruence.
Qed.

#[export] Instance same_position_preorder : PreOrder same_position.
Proof.
  split; [intros p; reflexivity|].
  intros p1 p2 p3 H1 H2. unfold same_position in *. congruence.
Qed.

#[export] Instance frozen_kept_preorder : PreOrder frozen_kept.
Proof.
  split.
  - intros p _. repeat split.
  - intros p1 p2 p3 H12 H23 Hz.
    destruct (H12 Hz) as (Hv & Hx & Hf & Hb).
    destruct H23 as (Hv' & Hx' & Hf' & Hb'); [congruence|].
    repeat split; congruence.
Qed.

#[export] Instance same_but_velocity_preorder : PreOrder same_but_velocity.
Proof.
  split.
  - intros p. repeat split.
  - intros p1 p2 p3 (?&?&?&?&?) (?&?&?&?&?). repeat split; congruence.
Qed.

#[export] Instance same_informants_preorder : PreOrder same_informants.
Proof.
  split; [intros p; reflexivity | intros p1 p2 p3 H1 H2; unfold same_informants in *; congruence].
Qed.

Section Frames.
Variable random : nat -> Q.

Lemma assess_fitness_frame p :
  let p' := snd (assess_fitness p) in
  position p' = position p /\ velocity p' = velocity p /\
  informants p' = informants p /\ fitness_fn p' = fitness_fn p /\
  velocity_list p' = velocity_list p.
Proof.
  unfold assess_fitness. destruct (fitness_fn p) as [f|] eqn:Hf; simpl; [|done].
  destruct (personal_fittest_loc p) as [pb|]; simpl;
    repeat case_match; simpl; done.
Qed.

Lemma velocity_loop_length s p pb ib range v rs :
  length (velocity_loop random s p pb ib range v rs).1.2 = length v.
Proof.
  revert v rs. induction range as [|i range IH]; intros v rs; simpl; [done|].
  destruct (new_velocity_at _ _ _ _ _ _ _ _ _); simpl; [|done].
  rewrite IH. apply length_insert.
Qed.

Lemma update_one_frame s ps p :
  same_but_velocity p (update_one random s ps p).1.2.
Proof.
  unfold update_one.
  destruct (informants p) as [infs|] eqn:Hi; simpl; [|by repeat split].
  destruct (scan_informants _ _ _); simpl; [|by repeat split].
  destruct (search_dimension s); simpl; [|by repeat split].
  destruct (velocity_loop _ _ _ _ _ _ _ _) as [[[[]|e] v1] rs]; simpl; by repeat split.
Qed.

Lemma update_one_length s ps p :
  length (velocity (update_one random s ps p).1.2) = length (velocity p).
Proof.
  unfold update_one.
  destruct (informants p) as [infs|] eqn:Hi; simpl; [|done].
  destruct (scan_informants _ _ _); simpl; [|done].
  destruct (search_dimension s); simpl; [|done].
  pose proof (velocity_loop_length s p (personal_fittest_loc p) a
                (seq 0 (length l)) (velocity p) (random_state s)) as Hl.
  destruct (velocity_loop _ _ _ _ _ _ _ _) as [[[[]|e] v1] rs]; simpl in *; done.
Qed.

Lemma move_one_frame s p :
  let p' := (move_one random s p).1.2 in
  velocity p' = velocity p /\ fitness_loc p' = fitness_loc p /\
  personal_fittest_loc p' = personal_fittest_loc p /\
  informants p' = informants p /\ fitness_fn p' = fitness_fn p /\
  velocity_list p' = velocity_list p.
Proof.
  unfold move_one. destruct (np_add _ _); simpl; [|done].
  destruct (search_dimension s); simpl; [|done].
  destruct (move_loop _ _ _ _ _ _ _) as [[temp'|e] rs]; simpl; done.
Qed.

End Frames.

#[export] Instance same_settings_preorder : PreOrder same_settings.
Proof.
  split.
  - intros s. repeat split.
  - intros s1 s2 s3 H1 H2. unfold same_settings in *.
    destruct_and!. repeat split; congruence.
Qed.

#[export] Instance same_best_preorder : PreOrder same_best.
Proof.
  split.
  - intros s. split; reflexivity.
  - intros s1 s2 s3 [] []. split; congruence.
Qed.

#[export] Instance best_not_worse_preorder : PreOrder best_not_worse.
Proof.
  split.
  - intros s b Hb. exists b. split; [done | apply Qle_refl].
  - intros s1 s2 s3 H12 H23 b Hb.
    destruct (H12 b Hb) as (b2 & Hb2 & Hle2).
    destruct (H23 b2 Hb2) as (b3 & Hb3 & Hle3).
    exists b3. split; [done | eapply Qle_trans; eauto].
Qed.

Lemma same_best_not_worse s s' : same_best s s' -> best_not_worse s s'.
Proof.
  intros [Hb _] b Hs. exists b. split; [congruence | apply Qle_refl].
Qed.

Lemma Qlt_bool_lt a b : Qlt_bool a b = true -> (a < b)%Q.
Proof.
  unfold Qlt_bool. intros H. apply negb_true_iff in H.
  apply Qnot_le_lt. intros Hle. apply Qle_bool_iff in Hle. congruence.
Qed.

Lemma Qlt_bool_ge a b : Qlt_bool a b = false -> (b <= a)%Q.
Proof.
  unfold Qlt_bool. intros H. apply negb_false_iff in H. by apply Qle_bool_iff.
Qed.

Section BodyKeeps.
Variable random : nat -> Q.

Ltac by_setters s := destruct s; simpl in *; try subst; repeat split; done.

Lemma assess_body_particles P `{!PreOrder P} k :
  (forall p, any_nonzero (velocity p) = true -> P p (snd (assess_fitness p))) ->
  keeps (particles_rel P) (_pso_assess_fitness_body k).
Proof.
  intros HP s. rewrite _pso_assess_fitness_body_unfold.
  destruct (particles s) as [ps|] eqn:Hps; [|reflexivity].
  destruct (ps !! k) as [p|] eqn:Hp; [|reflexivity].
  destruct (any_nonzero (velocity p)) eqn:Hv; simpl; [|reflexivity].
  specialize (HP p Hv).
  destruct (assess_fitness p) as [[fl|e] p']; simpl in *;
    [destruct (match best s with Some b' => FitnessLoc_gt fl b' | None => true end)|];
    simpl; eapply particles_rel_insert; eauto; apply _.
Qed.

Lemma update_body_particles P `{!PreOrder P} k :
  (forall s ps p, any_nonzero (velocity p) = true ->
     P p (update_one random s ps p).1.2) ->
  keeps (particles_rel P) (_update_particle_body random k).
Proof.
  intros HP s. rewrite _update_particle_body_unfold.
  destruct (particles s) as [ps|] eqn:Hps; [|reflexivity].
  destruct (ps !! k) as [p|] eqn:Hp; [|reflexivity].
  destruct (any_nonzero (velocity p)) eqn:Hv; simpl; [|reflexivity].
  specialize (HP s ps p Hv).
  destruct (update_one random s ps p) as [[r p'] rs]; simpl in *.
  eapply particles_rel_insert; eauto; apply _.
Qed.

Lemma move_body_particles P `{!PreOrder P} k :
  (forall s p, any_nonzero (velocity p) = true ->
     P p (move_one random s p).1.2) ->
  keeps (particles_rel P) (_move_particles_body random k).
Proof.
  intros HP s. rewrite _move_particles_body_unfold.
  destruct (particles s) as [ps|] eqn:Hps; [|reflexivity].
  destruct (ps !! k) as [p|] eqn:Hp; [|reflexivity].
  destruct (any_nonzero (velocity p)) eqn:Hv; simpl; [|reflexivity].
  specialize (HP s p Hv).
  destruct (move_one random s p) as [[r p'] rs]; simpl in *.
  eapply particles_rel_insert; eauto; apply _.
Qed.

Lemma assess_body_settings k : keeps same_settings (_pso_assess_fitness_body k).
Proof.
  intros s. rewrite _pso_assess_fitness_body_unfold.
  repeat case_match; simpl; try reflexivity; by_setters s.
Qed.

Lemma update_body_settings k : keeps same_settings (_update_particle_body random k).
Proof.
  intros s. rewrite _update_particle_body_unfold.
  repeat case_match; simpl; try reflexivity; by_setters s.
Qed.

Lemma move_body_settings k : keeps same_settings (_move_particles_body random k).
Proof.
  intros s. rewrite _move_particles_body_unfold.
  repeat case_match; simpl; try reflexivity; by_setters s.
Qed.

Lemma update_body_best k : keeps same_best (_update_particle_body random k).
Proof.
  intros s. rewrite _update_particle_body_unfold.
  repeat case_match; simpl; try reflexivity; by_setters s.
Qed.

Lemma move_body_best k : keeps same_best (_move_particles_body random k).
Proof.
  intros s. rewrite _move_particles_body_unfold.
  repeat case_match; simpl; try reflexivity; by_setters s.
Qed.

Lemma assess_body_best k : keeps best_not_worse (_pso_assess_fitness_body k).
Proof.
  intros s. rewrite _pso_assess_fitness_body_unfold.
  destruct (particles s) as [ps|] eqn:Hps; [|reflexivity].
  destruct (ps !! k) as [p|] eqn:Hp; [|reflexivity].
  destruct (negb (any_nonzero (velocity p))); [reflexivity|].
  destruct (assess_fitness p) as [[fl|e] p']; simpl.
  - destruct (best s) as [b|] eqn:Hb.
    + destruct (FitnessLoc_gt fl b) eqn:Hgt; simpl.
      * intros b0 Hb0. exists fl. split; [done|].
        apply Qlt_le_weak, Qlt_bool_lt. unfold FitnessLoc_gt in Hgt. congruence.
      * intros b0 Hb0. exists b0. split; [exact Hb0 | apply Qle_refl].
    + intros b0 Hb0. congruence.
  - intros b0 Hb0. exists b0. split; [exact Hb0 | apply Qle_refl].
Qed.

End BodyKeeps.


(** ** From the bodies to the phases and the loop *)

Section Phases.
Variable random : nat -> Q.

Section Generic.
Context (R : relation PSO) `{!PreOrder R}.

Lemma sweep_keeps :
  keeps R _pso_assess_fitness -> keeps R (_update_particle random) ->
  keeps R (_move_particles random) -> keeps R (sweep random).
Proof.
  intros Ha Hu Hm. unfold sweep.
  apply (keeps_bind R); [done | intros ?].
  apply (keeps_bind R); [done | intros ?; done].
Qed.

Lemma fitness_delta_keeps : keeps R fitness_delta.
Proof.
  unfold fitness_delta.
  repeat (apply (keeps_bind R);
          [first [apply (keeps_gets R) | apply (keeps_lift R)] | intros ?]).
  apply (keeps_ret R).
Qed.

Lemma run_loop_keeps fuel c :
  keeps R (sweep random) -> keeps R (run_loop random fuel c).
Proof.
  intros Hs. revert c. induction fuel as [|fuel IH]; intros c; simpl.
  - apply (keeps_ret R).
  - destruct (terminate c); [apply (keeps_ret R)|].
    apply (keeps_bind R); [done | intros ?].
    apply (keeps_bind R); [apply fitness_delta_keeps | intros ?; apply IH].
Qed.

End Generic.

Lemma assess_phase_particles P `{!PreOrder P} :
  (forall p, any_nonzero (velocity p) = true -> P p (snd (assess_fitness p))) ->
  keeps (particles_rel P) _pso_assess_fitness.
Proof.
  intros H. apply keeps_for_particles; [apply _|]. intros k.
  by apply assess_body_particles.
Qed.

Lemma update_phase_particles P `{!PreOrder P} :
  (forall s ps p, any_nonzero (velocity p) = true ->
     P p (update_one random s ps p).1.2) ->
  keeps (particles_rel P) (_update_particle random).
Proof.
  intros H. apply keeps_for_particles; [apply _|]. intros k.
  by apply update_body_particles.
Qed.

Lemma move_phase_particles P `{!PreOrder P} :
  (forall s p, any_nonzero (velocity p) = true ->
     P p (move_one random s p).1.2) ->
  keeps (particles_rel P) (_move_particles random).
Proof.
  intros H. apply keeps_for_particles; [apply _|]. intros k.
  by apply move_body_particles.
Qed.

Lemma assess_phase_settings : keeps same_settings _pso_assess_fitness.
Proof.
  apply keeps_for_particles; [apply _|]. intros k. apply assess_body_settings.
Qed.

Lemma update_phase_settings : keeps same_settings (_update_particle random).
Proof.
  apply keeps_for_particles; [apply _|]. intros k. apply update_body_settings.
Qed.

Lemma move_phase_settings : keeps same_settings (_move_particles random).
Proof.
  apply keeps_for_particles; [apply _|]. intros k. apply move_body_settings.
Qed.

Lemma update_phase_best : keeps same_best (_update_particle random).
Proof.
  apply keeps_for_particles; [apply _|]. intros k. apply update_body_best.
Qed.

Lemma move_phase_best : keeps same_best (_move_particles random).
Proof.
  apply keeps_for_particles; [apply _|]. intros k. apply move_body_best.
Qed.

Lemma assess_phase_shape : keeps (particles_rel same_shape) _pso_assess_fitness.
Proof.
  apply assess_phase_particles; [apply _|]. intros p _.
  destruct (assess_fitness_frame p) as (Hx & Hv & _). split; congruence.
Qed.

Lemma update_phase_shape : keeps (particles_rel same_shape) (_update_particle random).
Proof.
  apply update_phase_particles; [apply _|]. intros s ps p _. split.
  - apply update_one_frame.
  - apply update_one_length.
Qed.

Lemma sweep_particles P `{!PreOrder P} :
  (forall p, any_nonzero (velocity p) = true -> P p (snd (assess_fitness p))) ->
  (forall s ps p, any_nonzero (velocity p) = true ->
     P p (update_one random s ps p).1.2) ->
  (forall s p, any_nonzero (velocity p) = true ->
     P p (move_one random s p).1.2) ->
  keeps (particles_rel P) (sweep random).
Proof.
  intros Ha Hu Hm. apply sweep_keeps; try apply _.
  - by apply assess_phase_particles.
  - by apply update_phase_particles.
  - by apply move_phase_particles.
Qed.

Lemma sweep_frozen_kept : keeps (particles_rel frozen_kept) (sweep random).
Proof.
  apply sweep_particles; try apply _; intros; intros Hz; congruence.
Qed.

Lemma sweep_same_informants : keeps (particles_rel same_informants) (sweep random).
Proof.
  apply sweep_particles; try apply _; intros; unfold same_informants.
  - apply assess_fitness_frame.
  - apply update_one_frame.
  - apply move_one_frame.
Qed.

Lemma sweep_settings : keeps same_settings (sweep random).
Proof.
  apply sweep_keeps; try apply _; apply keeps_for_particles; try apply _; intros k.
  - apply assess_body_settings.
  - apply update_body_settings.
  - apply move_body_settings.
Qed.

Lemma sweep_best : keeps best_not_worse (sweep random).
Proof.
  apply sweep_keeps; try apply _; apply keeps_for_particles; try apply _; intros k.
  - apply assess_body_best.
  - intros s. apply same_best_not_worse, update_body_best.
  - intros s. apply same_best_not_worse, move_body_best.
Qed.

End Phases.

(** ** The move phase and the bounds *)

Lemma in_bounds_within d x : in_bounds d x = true <-> within d x.
Proof.
  unfold in_bounds, within. rewrite andb_true_iff, !Qle_bool_iff. reflexivity.
Qed.

Lemma uniform_within d r :
  ordered d -> (0 <= r)%Q -> (r <= 1)%Q -> within d (uniform (fst d) (snd d) r).
Proof.
  unfold ordered, within, uniform. destruct d as [lo hi]; simpl.
  intros Hd H0 H1. split; nra.
Qed.

Lemma np_add_scale_length eps pos vel :
  length vel = length pos ->
  exists temp, np_add pos (np_scale eps vel) = Ok temp /\
               length temp = length pos /\
               forall i x v, pos !! i = Some x -> vel !! i = Some v ->
                             temp !! i = Some (x + eps * v)%Q.
Proof.
  intros Hl. unfold np_add, np_scale. rewrite length_map, Hl, Nat.eqb_refl.
  eexists. split; [reflexivity|]. split.
  - rewrite length_zip_with, length_map. lia.
  - intros i x v Hx Hv. rewrite lookup_zip_with, Hx. simpl.
    rewrite list_lookup_fmap, Hv. reflexivity.
Qed.

Lemma all_particles_insert I s s' ps k p' :
  particles s = Some ps -> particles s' = Some (<[k:=p']> ps) ->
  all_particles I s -> I p' -> all_particles I s'.
Proof.
  intros Hps Hps' Hall Hp' j q. unfold particle_at. rewrite Hps'. simpl.
  destruct (decide (k = j)) as [->|Hne].
  - intros Hq. apply list_lookup_insert_Some in Hq as [(_ & <- & _)|[? _]]; done.
  - rewrite list_lookup_insert_ne by done. intros Hq. apply (Hall j).
    unfold particle_at. rewrite Hps. done.
Qed.

Lemma all_particles_rel (I : Particle -> Prop) P s s' :
  (forall p p', P p p' -> I p -> I p') ->
  particles_rel P s s' -> all_particles I s -> all_particles I s'.
Proof.
  intros HPI Hrel Hall k p' Hp'.
  destruct (particles_rel_lookup_r _ _ _ _ _ Hrel Hp') as (p & Hp & HP).
  eapply HPI; eauto.
Qed.

Section MoveBounds.
Variable random : nat -> Q.
Hypothesis random_unit : forall n, (0 <= random n)%Q /\ (random n <= 1)%Q.

Lemma move_loop_within policy pos dims :
  policy <> BOUNCE -> Forall ordered dims ->
  forall index temp rs temp' rs',
    (forall i d x, dims !! i = Some d -> pos !! (index + i) = Some x -> within d x) ->
    move_loop random policy pos index dims temp rs = (Ok temp', rs') ->
    length temp' = length temp /\
    (forall j, j < index -> temp' !! j = temp !! j) /\
    (forall i d, dims !! i = Some d ->
       exists x, temp' !! (index + i) = Some x /\ within d x).
Proof.
  intros Hpol Hord. induction Hord as [|d dims Hd Hord IH];
    intros index temp rs temp' rs' Hpos Hrun; simpl in Hrun.
  - injection Hrun as <- <-. repeat split. intros i d Hi. done.
  - destruct (temp !! index) as [t|] eqn:Ht; [|done].
    assert (Hlt : index < length temp) by (eapply lookup_lt_Some; eauto).
    assert (Hpos' : forall i d0 x, dims !! i = Some d0 ->
              pos !! (S index + i) = Some x -> within d0 x).
    { intros i d0 x Hi Hx. apply (Hpos (S i) d0 x); [done|].
      by replace (index + S i) with (S index + i) by lia. }
    assert (Hstep : forall temp1 x1,
              temp1 !! index = Some x1 -> within d x1 ->
              length temp1 = length temp ->
              (forall j, j < index -> temp1 !! j = temp !! j) ->
              forall rs1, move_loop random policy pos (S index) dims temp1 rs1
                          = (Ok temp', rs') ->
              length temp' = length temp /\
              (forall j, j < index -> temp' !! j = temp !! j) /\
              (forall i d0, (d :: dims) !! i = Some d0 ->
                 exists x, temp' !! (index + i) = Some x /\ within d0 x)).
    { intros temp1 x1 H1 Hw Hlen Hlow rs1 Hrun1.
      destruct (IH _ _ _ _ _ Hpos' Hrun1) as (Hlen' & Hlow' & Hup').
      split; [congruence|]. split.
      - intros j Hj. rewrite Hlow' by lia. by apply Hlow.
      - intros [|i] d0 Hi; simpl in Hi.
        + injection Hi as <-. exists x1. rewrite Nat.add_0_r, Hlow' by lia. done.
        + destruct (Hup' i d0 Hi) as (x & Hx & Hwx). exists x.
          by replace (index + S i) with (S index + i) by lia. }
    destruct (in_bounds d t) eqn:Hin.
    + eapply (Hstep temp t); eauto. by apply in_bounds_within.
    + destruct policy; [| |done].
      * eapply (Hstep (<[index:=_]> temp)); eauto.
        -- by apply list_lookup_insert_eq.
        -- apply uniform_within; [done | apply random_unit..].
        -- apply length_insert.
        -- intros j Hj. apply list_lookup_insert_ne. lia.
      * destruct (pos !! index) as [x|] eqn:Hx; [|done].
        eapply (Hstep (<[index:=x]> temp)); eauto.
        -- by apply list_lookup_insert_eq.
        -- apply (Hpos 0 d x); [done | by rewrite Nat.add_0_r].
        -- apply length_insert.
        -- intros j Hj. apply list_lookup_insert_ne. lia.
Qed.

Lemma move_one_in_range dims s p :
  search_dimension s = Some dims -> boundary_policy s <> BOUNCE ->
  Forall ordered dims -> in_range dims p ->
  in_range dims (move_one random s p).1.2.
Proof.
  intros Hd Hpol Hord [Hpos Hvel]. unfold move_one.
  destruct (np_add_scale_length (epsilon s) (position p) (velocity p))
    as (temp & -> & Hlen & _).
  { rewrite Hvel. symmetry. by eapply Forall2_length. }
  rewrite Hd.
  destruct (move_loop _ _ _ _ _ _ _) as [[temp'|e] rs] eqn:Hrun; simpl;
    [|by split].
  apply move_loop_within in Hrun as (Hlen' & _ & Hup); [|done..|].
  - split; [|done]. simpl. apply Forall2_same_length_lookup_2.
    + rewrite Hlen', Hlen. by eapply Forall2_length.
    + intros i x d Hx Hdi. destruct (Hup i d Hdi) as (x' & Hx' & Hw).
      simpl in Hx'. congruence.
  - intros i d x Hdi Hx. simpl in Hx.
    eapply (Forall2_lookup_lr _ _ _ _ _ _ Hpos); eauto.
Qed.

Lemma move_body_in_range dims k :
  keeps (preserves (swarm_in_range dims)) (_move_particles_body random k).
Proof.
  intros s (Hd & Hpol & Hord & Hall). rewrite _move_particles_body_unfold.
  destruct (particles s) as [ps|] eqn:Hps; [|done].
  destruct (ps !! k) as [p|] eqn:Hp; [|done].
  destruct (negb (any_nonzero (velocity p))); [done|].
  pose proof (move_one_in_range dims s p Hd Hpol Hord) as Hone.
  destruct (move_one random s p) as [[r p'] rs]; simpl in *.
  split; [done|]. split; [done|]. split; [done|].
  eapply all_particles_insert; [exact Hps | reflexivity | exact Hall |].
  apply Hone, (Hall k). unfold particle_at. rewrite Hps. done.
Qed.

Lemma in_range_same_shape dims s s' :
  same_settings s s' -> particles_rel same_shape s s' ->
  swarm_in_range dims s -> swarm_in_range dims s'.
Proof.
  intros Hset Hrel (Hd & Hpol & Hord & Hall). unfold same_settings in Hset.
  destruct_and!. split; [congruence|]. split; [congruence|]. split; [done|].
  eapply all_particles_rel; [|done..].
  intros p p' [Hx Hv] [Hr Hl]. split; congruence.
Qed.

Lemma sweep_in_range dims : keeps (preserves (swarm_in_range dims)) (sweep random).
Proof.
  apply sweep_keeps; [apply _|..].
  - intros s Hs. eapply in_range_same_shape; [| |exact Hs].
    + apply assess_phase_settings.
    + apply assess_phase_shape.
  - intros s Hs. eapply in_range_same_shape; [| |exact Hs].
    + apply update_phase_settings.
    + apply update_phase_shape.
  - apply keeps_for_particles; [apply _|]. intros k. apply move_body_in_range.
Qed.

Lemma move_phase_in_range dims :
  keeps (preserves (swarm_in_range dims)) (_move_particles random).
Proof.
  apply keeps_for_particles; [apply _|]. intros k. apply move_body_in_range.
Qed.

End MoveBounds.

(** ** The move phase with a zero jump size *)

#[export] Instance Forall2_Qeq_equiv : Equivalence (Forall2 Qeq).
Proof. apply _. Qed.

#[export] Instance same_place_preorder : PreOrder same_place.
Proof.
  split.
  - intros p. split; reflexivity.
  - intros p1 p2 p3 [H1 L1] [H2 L2]. split; [|congruence].
    etransitivity; eauto.
Qed.

#[export] Instance stays_put_preorder policy dims : PreOrder (stays_put policy dims).
Proof.
  split.
  - intros s Hs. split; [done | reflexivity].
  - intros s1 s2 s3 H12 H23 Hs.
    destruct (H12 Hs) as [Hs2 R12]. destruct (H23 Hs2) as [Hs3 R23].
    split; [done | etransitivity; eauto].
Qed.

Lemma in_bounds_Qeq d t x : (t == x)%Q -> in_bounds d t = in_bounds d x.
Proof.
  intros H. apply eq_true_iff_eq. rewrite !in_bounds_within. unfold within.
  rewrite H. reflexivity.
Qed.

Lemma within_Forall2_Qeq dims l l' :
  Forall2 Qeq l' l -> Forall2 (fun x d => within d x) l dims ->
  Forall2 (fun x d => within d x) l' dims.
Proof.
  intros Heq. revert dims. induction Heq as [|x' x l' l Hx Heq IH];
    intros dims Hw; inversion Hw; subst; constructor; [|by apply IH].
  unfold within in *. rewrite Hx. done.
Qed.

Section ZeroJump.
Variable random : nat -> Q.

Lemma move_loop_stays_put policy pos dims :
  forall index temp rs,
    Forall2 Qeq temp pos ->
    index + length dims <= length pos ->
    (policy = REFUSE \/
     forall i d x, dims !! i = Some d -> pos !! (index + i) = Some x -> within d x) ->
    exists temp', move_loop random policy pos index dims temp rs = (Ok temp', rs) /\
                  Forall2 Qeq temp' pos.
Proof.
  induction dims as [|d dims IH]; intros index temp rs Heq Hlen Hcase; simpl.
  - eauto.
  - simpl in Hlen.
    destruct (lookup_lt_is_Some_2 pos index) as [x Hx]; [lia|].
    destruct (Forall2_lookup_r _ _ _ _ _ Heq Hx) as (t & Ht & Htx).
    rewrite Ht, (in_bounds_Qeq d t x Htx).
    assert (Hcase' : policy = REFUSE \/
              forall i d0 x0, dims !! i = Some d0 ->
                pos !! (S index + i) = Some x0 -> within d0 x0).
    { destruct Hcase as [?|Hw]; [by left | right].
      intros i d0 x0 Hi Hx0. apply (Hw (S i) d0 x0); [done|].
      by replace (index + S i) with (S index + i) by lia. }
    destruct (in_bounds d x) eqn:Hin.
    + apply IH; [done | lia | done].
    + destruct Hcase as [-> | Hw].
      * rewrite Hx. apply IH; [|lia|done].
        rewrite <- (list_insert_id pos index x Hx).
        apply Forall2_insert; [done | reflexivity].
      * exfalso. assert (within d x) as Hwx
          by (apply (Hw 0 d x); [done | by rewrite Nat.add_0_r]).
        apply in_bounds_within in Hwx. congruence.
Qed.

Lemma move_one_stays_put policy dims s p :
  search_dimension s = Some dims -> (epsilon s == 0)%Q ->
  boundary_policy s = policy -> settled policy dims p ->
  settled policy dims (move_one random s p).1.2 /\
  same_place p (move_one random s p).1.2 /\
  (move_one random s p).2 = random_state s /\
  (move_one random s p).1.1 = Ok tt.
Proof.
  intros Hd Heps Hpol (Hlx & Hlv & Hcase). unfold move_one.
  destruct (np_add_scale_length (epsilon s) (position p) (velocity p))
    as (temp & -> & Hlen & Htemp); [congruence|].
  rewrite Hd, Hpol.
  destruct (move_loop_stays_put policy (position p) dims 0 temp (random_state s))
    as (temp' & -> & Heq).
  - apply Forall2_same_length_lookup_2; [done|].
    intros i t x Ht Hx.
    destruct (lookup_lt_is_Some_2 (velocity p) i) as [v Hv].
    { rewrite Hlv, <- Hlx. eapply lookup_lt_Some; eauto. }
    rewrite (Htemp i x v Hx Hv) in Ht. injection Ht as <-.
    rewrite Heps. ring.
  - simpl. lia.
  - destruct Hcase as [?|Hw]; [by left | right].
    intros i d x Hi Hx. simpl in Hx. eapply (Forall2_lookup_lr _ _ _ _ _ _ Hw); eauto.
  - simpl. repeat split; try done.
    + rewrite <- Hlx. by eapply Forall2_length.
    + destruct Hcase as [?|Hw]; [by left | right].
      by eapply within_Forall2_Qeq.
Qed.

Lemma move_body_stays_put policy dims k :
  keeps (stays_put policy dims) (_move_particles_body random k).
Proof.
  intros s (Hd & Heps & Hpol & Hall). rewrite _move_particles_body_unfold.
  destruct (particles s) as [ps|] eqn:Hps; [|by split; [|reflexivity]].
  destruct (ps !! k) as [p|] eqn:Hp; [|by split; [|reflexivity]].
  destruct (negb (any_nonzero (velocity p))); [by split; [|reflexivity]|].
  assert (Hset : settled policy dims p).
  { apply (Hall k). unfold particle_at. rewrite Hps. done. }
  destruct (move_one_stays_put policy dims s p Hd Heps Hpol Hset)
    as (Hset' & Hplace & _ & _).
  destruct (move_one random s p) as [[r p'] rs]; simpl in *.
  split.
  - split; [done|]. split; [done|]. split; [done|].
    eapply all_particles_insert; [exact Hps | reflexivity | exact Hall | done].
  - eapply particles_rel_insert; [apply _ | exact Hps | exact Hp | reflexivity | done].
Qed.

Lemma stays_put_same_shape policy dims s s' :
  same_settings s s' -> particles_rel same_shape s s' -> stays_put policy dims s s'.
Proof.
  intros Hset Hrel (Hd & Heps & Hpol & Hall). unfold same_settings in Hset.
  destruct_and!. split.
  - split; [congruence|]. split; [congruence|]. split; [congruence|].
    eapply all_particles_rel; [|done..].
    intros p p' [Hx Hv] (Hlx & Hlv & Hcase). unfold settled. rewrite Hx, Hv. done.
  - intros k. specialize (Hrel k).
    destruct Hrel as [p p' [Hx Hv]|]; constructor.
    split; [by rewrite Hx | done].
Qed.

Lemma sweep_stays_put policy dims : keeps (stays_put policy dims) (sweep random).
Proof.
  apply sweep_keeps; [apply _|..].
  - intros s. apply stays_put_same_shape;
      [apply assess_phase_settings | apply assess_phase_shape].
  - intros s. apply stays_put_same_shape;
      [apply update_phase_settings | apply update_phase_shape].
  - apply keeps_for_particles; [apply _|]. intros k. apply move_body_stays_put.
Qed.

Lemma move_phase_stays_put policy dims :
  keeps (stays_put policy dims) (_move_particles random).
Proof.
  apply keeps_for_particles; [apply _|]. intros k. apply move_body_stays_put.
Qed.

End ZeroJump.

(** ** The move phase with inverted bounds *)

#[export] Instance holds_still_preorder dims : PreOrder (holds_still dims).
Proof.
  split.
  - intros s Hs. split; [done | reflexivity].
  - intros s1 s2 s3 H12 H23 Hs.
    destruct (H12 Hs) as [Hs2 R12]. destruct (H23 Hs2) as [Hs3 R23].
    split; [done | etransitivity; eauto].
Qed.

Lemma in_bounds_inverted d x : inverted d -> in_bounds d x = false.
Proof.
  intros Hd. destruct (in_bounds d x) eqn:Hin; [|done].
  apply in_bounds_within in Hin as [H1 H2]. unfold inverted in Hd.
  exfalso. apply (Qlt_irrefl (fst d)).
  eapply Qle_lt_trans; [|exact Hd]. eapply Qle_trans; eauto.
Qed.

Section Inverted.
Variable random : nat -> Q.

Lemma move_loop_inverted_reinit pos dims :
  Forall inverted dims ->
  forall index temp rs,
    index + length dims <= length temp ->
    exists temp',
      move_loop random RANDOMREINIT pos index dims temp rs
        = (Ok temp', rs + length dims) /\
      length temp' = length temp /\
      (forall j, j < index -> temp' !! j = temp !! j) /\
      (forall i d, dims !! i = Some d ->
         temp' !! (index + i) = Some (uniform (fst d) (snd d) (random (rs + i)))).
Proof.
  induction 1 as [|d dims Hd Hinv IH]; intros index temp rs Hlen; simpl in *.
  - exists temp. rewrite Nat.add_0_r. repeat split. intros i d Hi. done.
  - destruct (lookup_lt_is_Some_2 temp index) as [t Ht]; [lia|].
    rewrite Ht, in_bounds_inverted by done.
    destruct (IH (S index) (<[index:=uniform (fst d) (snd d) (random rs)]> temp)
                (rs + 1)) as (temp' & Hrun & Hlen' & Hlow & Hup).
    { rewrite length_insert. lia. }
    exists temp'. split; [rewrite Hrun; f_equal; lia|].
    rewrite length_insert in Hlen'. split; [done|]. split.
    + intros j Hj. rewrite Hlow by lia. apply list_lookup_insert_ne. lia.
    + intros [|i] d0 Hi; simpl in Hi.
      * injection Hi as <-. rewrite !Nat.add_0_r, Hlow by lia.
        apply list_lookup_insert_eq. lia.
      * replace (index + S i) with (S index + i) by lia.
        replace (rs + S i) with (rs + 1 + i) by lia. by apply Hup.
Qed.

Lemma move_loop_inverted_refuse pos dims :
  Forall inverted dims ->
  forall index temp rs,
    index + length dims <= length temp ->
    index + length dims <= length pos ->
    exists temp',
      move_loop random REFUSE pos index dims temp rs = (Ok temp', rs) /\
      length temp' = length temp /\
      (forall j, j < index -> temp' !! j = temp !! j) /\
      (forall i, i < length dims -> temp' !! (index + i) = pos !! (index + i)).
Proof.
  induction 1 as [|d dims Hd Hinv IH]; intros index temp rs Hlen Hlenp; simpl in *.
  - exists temp. repeat split. intros i Hi. lia.
  - destruct (lookup_lt_is_Some_2 temp index) as [t Ht]; [lia|].
    destruct (lookup_lt_is_Some_2 pos index) as [x Hx]; [lia|].
    rewrite Ht, in_bounds_inverted, Hx by done.
    destruct (IH (S index) (<[index:=x]> temp) rs)
      as (temp' & Hrun & Hlen' & Hlow & Hup).
    { rewrite length_insert. lia. }
    { lia. }
    exists temp'. split; [done|].
    rewrite length_insert in Hlen'. split; [done|]. split.
    + intros j Hj. rewrite Hlow by lia. apply list_lookup_insert_ne. lia.
    + intros [|i] Hi.
      * rewrite !Nat.add_0_r, Hlow, Hx by lia. apply list_lookup_insert_eq. lia.
      * replace (index + S i) with (S index + i) by lia. apply Hup. lia.
Qed.

Lemma move_one_inverted_reinit dims s p :
  search_dimension s = Some dims -> boundary_policy s = RANDOMREINIT ->
  Forall inverted dims -> shaped dims p ->
  exists temp',
    move_one random s p
      = (Ok tt, update_position temp' p, random_state s + length dims) /\
    length temp' = length dims /\
    forall i d, dims !! i = Some d ->
      temp' !! i = Some (uniform (fst d) (snd d) (random (random_state s + i))).
Proof.
  intros Hd Hpol Hinv [Hlx Hlv]. unfold move_one.
  destruct (np_add_scale_length (epsilon s) (position p) (velocity p))
    as (temp & -> & Hlen & _); [congruence|].
  rewrite Hd, Hpol.
  destruct (move_loop_inverted_reinit (position p) dims Hinv 0 temp (random_state s))
    as (temp' & -> & Hlen' & _ & Hup); [simpl; lia|].
  exists temp'. split; [done|]. split; [congruence|]. exact Hup.
Qed.

Lemma move_one_inverted_refuse dims s p :
  search_dimension s = Some dims -> boundary_policy s = REFUSE ->
  Forall inverted dims -> shaped dims p ->
  move_one random s p = (Ok tt, update_position (position p) p, random_state s).
Proof.
  intros Hd Hpol Hinv [Hlx Hlv]. unfold move_one.
  destruct (np_add_scale_length (epsilon s) (position p) (velocity p))
    as (temp & -> & Hlen & _); [congruence|].
  rewrite Hd, Hpol.
  destruct (move_loop_inverted_refuse (position p) dims Hinv 0 temp (random_state s))
    as (temp' & -> & Hlen' & _ & Hup); [simpl; lia..|].
  replace temp' with (position p); [done|].
  apply list_eq_same_length with (length dims); [congruence..|].
  intros i x y Hi Hx Hy. specialize (Hup i Hi). simpl in Hup. congruence.
Qed.

Lemma move_body_holds_still dims k :
  Forall inverted dims ->
  keeps (holds_still dims) (_move_particles_body random k).
Proof.
  intros Hinv s (Hd & Hpol & Hall). rewrite _move_particles_body_unfold.
  destruct (particles s) as [ps|] eqn:Hps; [|by split; [|reflexivity]].
  destruct (ps !! k) as [p|] eqn:Hp; [|by split; [|reflexivity]].
  destruct (negb (any_nonzero (velocity p))); [by split; [|reflexivity]|].
  assert (Hsh : shaped dims p).
  { apply (Hall k). unfold particle_at. rewrite Hps. done. }
  rewrite (move_one_inverted_refuse dims s p Hd Hpol Hinv Hsh).
  split.
  - split; [done|]. split; [done|].
    eapply all_particles_insert; [exact Hps | reflexivity | exact Hall | done].
  - eapply particles_rel_insert; [apply _ | exact Hps | exact Hp | reflexivity |].
    split; reflexivity.
Qed.

Lemma holds_still_same_shape dims s s' :
  same_settings s s' -> particles_rel same_shape s s' -> holds_still dims s s'.
Proof.
  intros Hset Hrel (Hd & Hpol & Hall). unfold same_settings in Hset.
  destruct_and!. split; [|done].
  split; [congruence|]. split; [congruence|].
  eapply all_particles_rel; [|done..].
  intros p p' [Hx Hv] [Hlx Hlv]. unfold shaped. rewrite Hx, Hv. done.
Qed.

Lemma sweep_holds_still dims :
  Forall inverted dims -> keeps (holds_still dims) (sweep random).
Proof.
  intros Hinv. apply sweep_keeps; [apply _|..].
  - intros s. apply holds_still_same_shape;
      [apply assess_phase_settings | apply assess_phase_shape].
  - intros s. apply holds_still_same_shape;
      [apply update_phase_settings | apply update_phase_shape].
  - apply keeps_for_particles; [apply _|]. intros k. by apply move_body_holds_still.
Qed.

End Inverted.

(** ** The move phase under BOUNCE *)

Section Bounce.
Variable random : nat -> Q.

Lemma move_loop_bounce pos dims :
  forall index temp rs,
    index + length dims <= length temp ->
    move_loop random BOUNCE pos index dims temp rs
    = (if fits dims (drop index temp) then Ok temp
       else Raise NotImplementedError, rs).
Proof.
  induction dims as [|d dims IH]; intros index temp rs Hlen; simpl in *; [done|].
  destruct (lookup_lt_is_Some_2 temp index) as [t Ht]; [lia|].
  rewrite Ht, (drop_S _ _ _ Ht). unfold fits. simpl.
  destruct (in_bounds d t); simpl; [|done].
  apply IH. lia.
Qed.

Lemma move_one_bounce dims s p :
  search_dimension s = Some dims -> boundary_policy s = BOUNCE ->
  shaped dims p ->
  move_one random s p
  = if fits dims (candidate (epsilon s) p)
    then (Ok tt, update_position (candidate (epsilon s) p) p, random_state s)
    else (Raise NotImplementedError, p, random_state s).
Proof.
  intros Hd Hpol [Hlx Hlv]. unfold move_one, np_add, candidate.
  unfold np_scale at 1. rewrite length_map, Hlx, Hlv, Nat.eqb_refl, Hd, Hpol.
  rewrite move_loop_bounce.
  - rewrite drop_0. by destruct (fits _ _).
  - rewrite length_zip_with. unfold np_scale. rewrite length_map. simpl. lia.
Qed.

Lemma set_particles_insert_middle s done todo (p p' : Particle) rs :
  particles s = Some (done ++ p :: todo) -> rs = random_state s ->
  set_random_state rs
    (set_particles (Some (<[length done:=p']> (done ++ p :: todo))) s)
  = set_particles (Some ((done ++ [p']) ++ todo)) s.
Proof.
  intros Hps ->. rewrite insert_app_r_alt, Nat.sub_diag by lia. simpl.
  rewrite <- app_assoc. by destruct s.
Qed.

Lemma bounce_phase dims todo :
  forall done s,
    particles s = Some (done ++ todo) ->
    search_dimension s = Some dims -> boundary_policy s = BOUNCE ->
    Forall (shaped dims) todo ->
    for_each (seq (length done) (length todo)) (_move_particles_body random) s
    = let '(r, todo') := bounce_all (epsilon s) dims todo in
      (r, set_particles (Some (done ++ todo')) s).
Proof.
  induction todo as [|p todo IH]; intros done s Hps Hd Hpol Hsh; simpl.
  - rewrite <- Hps. by destruct s.
  - inversion Hsh as [|? ? Hp Hsh']; subst.
    unfold mbind, M_bind. rewrite _move_particles_body_unfold, Hps.
    rewrite list_lookup_middle by done.
    assert (Hnext : forall s1 p1,
              s1 = set_particles (Some ((done ++ [p1]) ++ todo)) s ->
              for_each (seq (S (length done)) (length todo))
                (_move_particles_body random) s1
              = let '(r, todo') := bounce_all (epsilon s) dims todo in
                (r, set_particles (Some (done ++ p1 :: todo')) s)).
    { intros s1 p1 ->.
      replace (S (length done)) with (length (done ++ [p1]))
        by (rewrite length_app; simpl; lia).
      rewrite IH; [|done..]. simpl.
      destruct (bounce_all _ _ _) as [r todo']. rewrite <- app_assoc. simpl.
      by destruct s. }
    destruct (negb (any_nonzero (velocity p))).
    + rewrite (Hnext s p).
      * by destruct (bounce_all _ _ _).
      * rewrite <- app_assoc. simpl. rewrite <- Hps. by destruct s.
    + rewrite (move_one_bounce dims s p Hd Hpol Hp).
      destruct (fits dims (candidate (epsilon s) p)).
      * rewrite (set_particles_insert_middle s done todo p _ _ Hps eq_refl).
        rewrite (Hnext _ (update_position (candidate (epsilon s) p) p) eq_refl).
        by destruct (bounce_all _ _ _).
      * rewrite list_insert_id by (by apply list_lookup_middle).
        rewrite <- Hps. by destruct s.
Qed.

Lemma bounce_all_velocity eps dims todo :
  Forall2 (fun p p' => velocity p' = velocity p) todo (bounce_all eps dims todo).2.
Proof.
  induction todo as [|p todo IH]; simpl; [constructor|].
  destruct (negb (any_nonzero (velocity p))).
  - destruct (bounce_all eps dims todo); simpl in *. by constructor.
  - destruct (fits dims (candidate eps p)).
    + destruct (bounce_all eps dims todo); simpl in *. by constructor.
    + simpl. constructor; [done|]. apply Forall2_same_length_lookup_2; [done|].
      intros; congruence.
Qed.

Lemma bounce_all_raise eps dims todo e :
  (bounce_all eps dims todo).1 = Raise e -> e = NotImplementedError.
Proof.
  induction todo as [|p todo IH]; simpl; [done|].
  destruct (negb (any_nonzero (velocity p))).
  - destruct (bounce_all eps dims todo); simpl in *. done.
  - destruct (fits dims (candidate eps p)).
    + destruct (bounce_all eps dims todo); simpl in *. done.
    + simpl. congruence.
Qed.

End Bounce.

(** ** Loops over the swarm with an invariant indexed by progress *)

Lemma for_each_seq_inv (I : nat -> PSO -> Prop) (body : nat -> M unit) n :
  forall a s,
    I a s ->
    (forall k s', a <= k < a + n -> I k s' ->
       fst (body k s') = Ok tt /\ I (S k) (snd (body k s'))) ->
    fst (for_each (seq a n) body s) = Ok tt /\
    I (a + n) (snd (for_each (seq a n) body s)).
Proof.
  induction n as [|n IH]; intros a s Ha Hstep; simpl.
  - rewrite Nat.add_0_r. done.
  - unfold mbind, M_bind.
    destruct (Hstep a s) as [Hok Hnext]; [lia | done |].
    destruct (body a s) as [[[]|e] s1]; simpl in *; [|done].
    replace (a + S n) with (S a + n) by lia.
    apply IH; [done|]. intros k s' Hk. apply Hstep. lia.
Qed.

(** ** Sampling the informants *)

Lemma not_elem_of_delete_NoDup {A} (l : list A) i x :
  NoDup l -> l !! i = Some x -> x ∉ delete i l.
Proof.
  intros Hnd Hi Hin. apply list_elem_of_lookup in Hin as [j Hj].
  destruct (decide (j < i)) as [Hlt|Hge].
  - rewrite list_lookup_delete_lt in Hj by done.
    pose proof (NoDup_lookup _ _ _ _ Hnd Hi Hj). lia.
  - rewrite list_lookup_delete_ge in Hj by lia.
    pose proof (NoDup_lookup _ _ _ _ Hnd Hi Hj). lia.
Qed.

Lemma NoDup_delete {A} (l : list A) i : NoDup l -> NoDup (delete i l).
Proof. intros H. eapply sublist_NoDup; [exact H | apply sublist_delete]. Qed.

Section Choice.
Variable np_random : nat -> nat.

Lemma choice_loop_spec {A} (size : nat) :
  forall (pool : list A) ns,
    size <= length pool -> NoDup pool ->
    length (choice_loop np_random pool size ns) = size /\
    NoDup (choice_loop np_random pool size ns) /\
    forall x, x ∈ choice_loop np_random pool size ns -> x ∈ pool.
Proof.
  induction size as [|size IH]; intros pool ns Hlen Hnd; simpl.
  - repeat split; [constructor | intros x Hx; inversion Hx].
  - assert (Hj : np_random ns mod length pool < length pool)
      by (apply Nat.mod_upper_bound; lia).
    destruct (lookup_lt_is_Some_2 pool _ Hj) as [x Hx]. rewrite Hx.
    destruct (IH (delete (np_random ns mod length pool) pool) (S ns))
      as (Hl & Hn & Hsub).
    { rewrite length_delete by eauto. lia. }
    { by apply NoDup_delete. }
    simpl. split; [lia|]. split.
    + apply NoDup_cons. split; [|done]. intros Hin.
      by eapply not_elem_of_delete_NoDup, Hsub.
    + intros y Hy. apply elem_of_cons in Hy as [->|Hy].
      * apply list_elem_of_lookup. eauto.
      * eapply list_elem_of_delete_inv, Hsub, Hy.
Qed.

Lemma np_random_choice_no_self (n k : nat) (size : Z) ns :
  k < n -> (0 <= size)%Z -> (size < Z.of_nat n)%Z ->
  exists chosen,
    np_random_choice np_random (delete k (seq 0 n)) size ns = Ok chosen /\
    Z.of_nat (length chosen) = size /\ NoDup chosen /\ (k ∉ chosen) /\
    (forall j, j ∈ chosen -> j < n).
Proof.
  intros Hk Hsize0 Hsize. unfold np_random_choice.
  assert (Hlen : length (delete k (seq 0 n)) = n - 1).
  { rewrite length_delete, length_seq; [done|].
    apply lookup_lt_is_Some_2. by rewrite length_seq. }
  rewrite Hlen.
  destruct (Z.ltb_spec size 0); [lia|].
  destruct (Z.ltb_spec (Z.of_nat (n - 1)) size); [lia|].
  destruct (choice_loop_spec (Z.to_nat size) (delete k (seq 0 n)) ns)
    as (Hl & Hn & Hsub); [lia | apply NoDup_delete, NoDup_seq |].
  eexists. split; [done|]. split; [lia|]. split; [done|]. split.
  - intros Hin. apply Hsub in Hin. revert Hin.
    apply not_elem_of_delete_NoDup; [apply NoDup_seq | by apply lookup_seq_lt].
  - intros j Hj. apply Hsub, list_elem_of_delete_inv, elem_of_seq in Hj. lia.
Qed.

End Choice.

(** ** Instantiation *)

Section Instantiate.
Variable random : nat -> Q.
Variable np_random : nat -> nat.

Lemma _init_position_ok s dims :
  search_dimension s = Some dims ->
  _init_position random s
  = (Ok (uniform_each random dims (random_state s)),
     set_random_state (random_state s + length dims) s).
Proof. intros Hd. unfold _init_position. run_monad. rewrite Hd. done. Qed.

Lemma _init_velocity_ok s dims :
  search_dimension s = Some dims ->
  _init_velocity random s
  = (Ok (uniform_each random dims (random_state s)),
     set_random_state (random_state s + length dims) s).
Proof. intros Hd. unfold _init_velocity. run_monad. rewrite Hd. done. Qed.

Lemma new_particles_ok n :
  forall s dims,
    search_dimension s = Some dims ->
    exists ps rs,
      new_particles random n s = (Ok ps, set_random_state rs s) /\
      length ps = n.
Proof.
  induction n as [|n IH]; intros s dims Hd; simpl.
  - exists [], (random_state s). split; [|done]. by destruct s.
  - unfold mbind, M_bind.
    rewrite (_init_position_ok s dims Hd).
    rewrite (_init_velocity_ok _ dims) by done. simpl.
    destruct (IH (set_random_state
                    (random_state s + length dims + length dims)
                    (set_random_state (random_state s + length dims) s)) dims)
      as (ps & rs & Hrun & Hlen); [done|].
    unfold gets. rewrite Hrun. unfold mret, M_ret. simpl. eexists _, rs.
    split; [apply f_equal2; [reflexivity | by destruct s] | simpl; by rewrite Hlen].
Qed.

Lemma _init_informants_body_wired n size k s :
  k < n -> (0 <= size)%Z -> (size < Z.of_nat n)%Z ->
  wired_up_to n size k s ->
  fst (_init_informants_body np_random k s) = Ok tt /\
  wired_up_to n size (S k) (snd (_init_informants_body np_random k s)).
Proof.
  intros Hk H0 Hsize (Hnum & ps & Hps & Hlen & Hwired).
  unfold _init_informants_body. run_monad. rewrite Hps, Hnum, Hlen. simpl.
  destruct (np_random_choice_no_self np_random n k size (np_random_state s))
    as (chosen & -> & Hl & Hnd & Hself & Hin); [done..|].
  simpl. rewrite ?Hps. simpl.
  destruct (lookup_lt_is_Some_2 ps k) as [p Hp]; [lia|].
  rewrite Hp. simpl. rewrite ?Hps. simpl. split; [done|].
  split; [done|]. eexists. split; [done|]. split; [by rewrite length_insert|].
  intros j q Hj Hq. destruct (decide (k = j)) as [->|Hne].
  - rewrite list_lookup_insert_eq in Hq by lia. injection Hq as <-.
    exists chosen. done.
  - rewrite list_lookup_insert_ne in Hq by done. apply (Hwired j q); [lia | done].
Qed.

Lemma _instantiate_particles_wired s dims f :
  pso_fitness_fn s = Some f -> search_dimension s = Some dims ->
  (0 <= num_informants s)%Z -> (num_informants s < swarm_size s)%Z ->
  fst (_instantiate_particles random np_random s) = Ok tt /\
  wired_up_to (Z.to_nat (swarm_size s)) (num_informants s)
    (Z.to_nat (swarm_size s))
    (snd (_instantiate_particles random np_random s)).
Proof.
  intros Hf Hd H0 Hsize.
  destruct (new_particles_ok (Z.to_nat (swarm_size s)) s dims Hd)
    as (ps & rs & Hnew & Hlen).
  assert (Heq : _instantiate_particles random np_random s
                = for_each (seq 0 (Z.to_nat (swarm_size s)))
                    (_init_informants_body np_random)
                    (set_particles (Some ps) (set_random_state rs s))).
  { unfold _instantiate_particles, _init_informants, for_particles.
    run_monad. rewrite Hf, Hnew, Hlen. done. }
  rewrite Heq.
  apply (for_each_seq_inv
           (wired_up_to (Z.to_nat (swarm_size s)) (num_informants s))).
  - split; [done|]. eexists. split; [done|]. split; [done|]. intros; lia.
  - intros k s' Hk. apply _init_informants_body_wired; lia.
Qed.

End Instantiate.

(** ** The velocity update *)

Lemma Qlt_bool_true a b : (a < b)%Q -> Qlt_bool a b = true.
Proof.
  intros H. destruct (Qlt_bool a b) eqn:E; [done|].
  apply Qlt_bool_ge in E. exfalso. by eapply Qlt_not_le.
Qed.

Lemma Qlt_bool_false a b : (b <= a)%Q -> Qlt_bool a b = false.
Proof.
  intros H. destruct (Qlt_bool a b) eqn:E; [|done].
  apply Qlt_bool_lt in E. exfalso. by eapply Qlt_not_le.
Qed.

(** The scan of the source against the words of the specification: the scan
    returns the first fittest informant when that one beats the accumulator
    it starts from, and the accumulator otherwise. *)
Lemma scan_informants_first_fittest ps infs :
  forall fls acc,
    informant_locs ps infs = Some fls ->
    scan_informants ps acc infs
    = Ok match first_fittest fls with
         | Some m => if FitnessLoc_lt acc m then m else acc
         | None => acc
         end.
Proof.
  induction infs as [|j infs IH]; intros fls acc Hlocs; simpl in *.
  - injection Hlocs as <-. done.
  - destruct (ps !! j) as [q|]; simpl in *; [|done].
    destruct (fitness_loc q) as [fl|]; simpl in *; [|done].
    destruct (informant_locs ps infs) as [rest|]; [|done].
    injection Hlocs as <-. rewrite (IH rest _ eq_refl). simpl. f_equal.
    unfold FitnessLoc_lt.
    destruct (first_fittest rest) as [m|]; [|done].
    destruct (Qlt_bool (fitness acc) (fitness fl)) eqn:E1;
      destruct (Qlt_bool (fitness fl) (fitness m)) eqn:E2; try done.
    + rewrite (Qlt_bool_true (fitness acc) (fitness m)); [done|].
      eapply Qlt_trans; by apply Qlt_bool_lt.
    + by rewrite E1.
    + rewrite E1, (Qlt_bool_false (fitness acc) (fitness m)); [done|].
      eapply Qle_trans; by apply Qlt_bool_ge.
Qed.

Section VelocityLoop.
Variable random : nat -> Q.

Lemma velocity_loop_ok s p pb ib gb (D : nat) :
  best s = Some gb ->
  length (position p) = D -> length (location pb) = D ->
  length (location ib) = D -> length (location gb) = D ->
  forall n a v rs,
    a + n <= D -> length v = D ->
    exists v',
      velocity_loop random s p (Some pb) ib (seq a n) v rs
        = (Ok tt, v', rs + 3 * n) /\
      length v' = D /\
      (forall j, j < a \/ a + n <= j -> v' !! j = v !! j) /\
      (forall i, a <= i < a + n ->
         v' !! i = Some (velocity_formula random s p pb ib gb i (nth i v 0%Q)
                           (rs + 3 * (i - a)))).
Proof.
  intros Hgb Hlx Hlpb Hlib Hlgb.
  induction n as [|n IH]; intros a v rs Han Hlv; cbn [seq velocity_loop].
  - exists v. rewrite Nat.mul_0_r, Nat.add_0_r. repeat split; [done|].
    intros i Hi. lia.
  - destruct (lookup_lt_is_Some_2 v a) as [v_a Hv]; [lia|].
    destruct (lookup_lt_is_Some_2 (location pb) a) as [pb_a Hpb]; [lia|].
    destruct (lookup_lt_is_Some_2 (position p) a) as [x_a Hx]; [lia|].
    destruct (lookup_lt_is_Some_2 (location ib) a) as [ib_a Hib]; [lia|].
    destruct (lookup_lt_is_Some_2 (location gb) a) as [gb_a Hga]; [lia|].
    unfold new_velocity_at, mbind, outcome_bind, or_raise.
    rewrite Hv; cbv beta iota. rewrite Hpb; cbv beta iota.
    rewrite Hx; cbv beta iota. rewrite Hib; cbv beta iota.
    rewrite Hgb; cbv beta iota. rewrite Hga; cbv beta iota.
    destruct (IH (S a) (<[a:=(alpha s * v_a
                  + uniform 0 (beta s) (random rs) * (pb_a - x_a)
                  + uniform 0 (gamma s) (random (rs + 1)) * (ib_a - x_a)
                  + uniform 0 (delta s) (random (rs + 2)) * (gb_a - x_a))%Q]> v)
                (rs + 3)) as (v' & Hrun & Hlv' & Hout & Hin).
    { lia. }
    { by rewrite length_insert. }
    exists v'. split; [rewrite Hrun; f_equal; lia|]. split; [done|]. split.
    + intros j Hj. rewrite Hout by lia. apply list_lookup_insert_ne. lia.
    + intros i Hi. destruct (decide (i = a)) as [->|Hne].
      * rewrite Hout by lia. rewrite list_lookup_insert_eq by lia.
        rewrite Nat.sub_diag, Nat.mul_0_r, Nat.add_0_r.
        unfold velocity_formula.
        rewrite (nth_lookup_Some _ _ _ _ Hv), (nth_lookup_Some _ _ _ _ Hpb),
          (nth_lookup_Some _ _ _ _ Hx), (nth_lookup_Some _ _ _ _ Hib),
          (nth_lookup_Some _ _ _ _ Hga).
        done.
      * rewrite Hin by lia.
        rewrite !nth_lookup, list_lookup_insert_ne by lia.
        replace (rs + 3 + 3 * (i - S a)) with (rs + 3 * (i - a)) by lia.
        done.
Qed.

Lemma velocity_loop_new_velocity s p pb ib gb (dims : list (Q * Q)) :
  best s = Some gb ->
  length (position p) = length dims -> length (velocity p) = length dims ->
  length (location pb) = length dims -> length (location ib) = length dims ->
  length (location gb) = length dims ->
  forall rs,
    velocity_loop random s p (Some pb) ib (seq 0 (length dims)) (velocity p) rs
    = (Ok tt, new_velocity random s p pb ib gb rs, rs + 3 * length dims).
Proof.
  intros Hgb Hlx Hlv Hlpb Hlib Hlgb rs.
  destruct (velocity_loop_ok s p pb ib gb (length dims) Hgb Hlx Hlpb Hlib Hlgb
              (length dims) 0 (velocity p) rs) as (v' & -> & Hlv' & _ & Hin);
    [lia | done |].
  f_equal. f_equal. unfold new_velocity.
  apply list_eq. intros i. rewrite list_lookup_imap.
  destruct (decide (i < length dims)) as [Hi|Hi].
  - rewrite Hin by lia. rewrite Nat.sub_0_r.
    destruct (lookup_lt_is_Some_2 (velocity p) i) as [v_i Hv]; [lia|].
    rewrite Hv. simpl. by rewrite (nth_lookup_Some _ _ _ _ Hv).
  - rewrite !lookup_ge_None_2 by lia. done.
Qed.

End VelocityLoop.

Lemma moving_before_S ps k p :
  ps !! k = Some p ->
  moving_before ps (S k)
  = moving_before ps k + (if any_nonzero (velocity p) then 1 else 0).
Proof.
  intros Hp. unfold moving_before. rewrite (take_S_r _ _ _ Hp).
  rewrite List.filter_app, length_app. simpl.
  by destruct (any_nonzero (velocity p)).
Qed.

Lemma moving_before_mono ps k k' : k <= k' -> moving_before ps k <= moving_before ps k'.
Proof.
  induction 1 as [|k' Hle IH]; [done|].
  destruct (ps !! k') as [p|] eqn:Hp.
  - rewrite (moving_before_S _ _ _ Hp). lia.
  - apply lookup_ge_None in Hp.
    assert (moving_before ps (S k') = moving_before ps k') as ->; [|done].
    unfold moving_before. rewrite !take_ge by lia. done.
Qed.

Lemma new_velocity_settings random s s' p pb ib gb rs :
  same_settings s s' ->
  new_velocity random s' p pb ib gb rs = new_velocity random s p pb ib gb rs.
Proof.
  intros (_ & _ & Ha & Hb & Hg & Hdl & _).
  unfold new_velocity, velocity_formula. rewrite Ha, Hb, Hg, Hdl. done.
Qed.

Lemma assessed_unique dims ps p pb ib pb' ib' :
  assessed dims ps p pb ib -> assessed dims ps p pb' ib' -> pb' = pb /\ ib' = ib.
Proof.
  intros (_ & _ & H1 & _ & H2 & _) (_ & _ & H1' & _ & H2' & _).
  split; congruence.
Qed.

Section UpdatePhase.
Variable random : nat -> Q.

Lemma update_one_ready s ps ps0 dims gb p pb ib :
  search_dimension s = Some dims -> best s = Some gb ->
  length (location gb) = length dims ->
  (forall j, fitness_loc <$> ps !! j = fitness_loc <$> ps0 !! j) ->
  assessed dims ps0 p pb ib -> beats_sentinel ib ->
  update_one random s ps p
  = (Ok tt,
     update_velocity (new_velocity random s p pb ib gb (random_state s))
       (set_velocity_list
          (velocity_list p ++ [new_velocity random s p pb ib gb (random_state s)]) p),
     random_state s + 3 * length dims).
Proof.
  intros Hd Hgb Hlgb Hfl (Hlx & Hlv & Hpb & Hlpb & Hib & Hlib) Hbeat.
  unfold update_one. unfold informant_best in Hib.
  destruct (informants p) as [infs|]; simpl in Hib; [|done].
  destruct (informant_locs ps0 infs) as [fls|] eqn:Hlocs; simpl in Hib; [|done].
  rewrite (scan_informants_ext ps0 ps) by done.
  rewrite (scan_informants_first_fittest ps0 infs fls sentinel_init Hlocs), Hib.
  unfold FitnessLoc_lt. rewrite (Qlt_bool_true _ _ Hbeat), Hd, Hpb.
  rewrite (velocity_loop_new_velocity random s p pb ib gb dims); done.
Qed.

Lemma update_body_step s0 ps dims gb k s :
  search_dimension s0 = Some dims -> length (location gb) = length dims ->
  all_ready dims ps -> k < length ps ->
  updated_up_to random s0 ps dims gb k s ->
  fst (_update_particle_body random k s) = Ok tt /\
  updated_up_to random s0 ps dims gb (S k) (snd (_update_particle_body random k s)).
Proof.
  intros Hd Hlgb Hready Hk (Hset & Hgb & Hrs & ps' & Hps' & Hlen & Hrest & Hdone).
  destruct (lookup_lt_is_Some_2 ps k Hk) as [p Hp].
  assert (Hp' : ps' !! k = Some p) by (by rewrite Hrest).
  assert (Hd' : search_dimension s = Some dims).
  { unfold same_settings in Hset. destruct_and!. congruence. }
  rewrite _update_particle_body_unfold, Hps', Hp'.
  destruct (any_nonzero (velocity p)) eqn:Hv; simpl.
  - destruct (Hready k p Hp Hv) as (pb & ib & Hass & Hbeat).
    rewrite (update_one_ready s ps' ps dims gb p pb ib); [|done..| |done|done].
    2:{ intros j. destruct (decide (k <= j)) as [Hj|Hj]; [by rewrite Hrest|].
        destruct (ps !! j) as [q|] eqn:Hq.
        - destruct (Hdone j q) as (q' & -> & (_ & Hf & _) & _); [lia | done |].
          simpl. by rewrite Hf.
        - apply lookup_ge_None in Hq. lia. }
    simpl. split; [done|]. split; [done|]. split; [done|]. split.
    { unfold draw_offset in *. rewrite (moving_before_S _ _ _ Hp), Hv, Hrs. simpl. nia. }
    eexists. split; [done|]. split; [by rewrite length_insert|]. split.
    + intros j Hj. rewrite list_lookup_insert_ne by lia. apply Hrest. lia.
    + intros j q Hj Hq. destruct (decide (j = k)) as [->|Hne].
      * rewrite list_lookup_insert_eq by lia. eexists. split; [done|].
        assert (q = p) as -> by congruence. split; [by repeat split|].
        split; [congruence|]. intros _ pb' ib' Hass'.
        destruct (assessed_unique _ _ _ _ _ _ _ Hass Hass') as [-> ->].
        simpl. rewrite (new_velocity_settings random s0 s) by done.
        by rewrite Hrs.
      * rewrite list_lookup_insert_ne by done. apply Hdone; [lia | done].
  - split; [done|]. split; [done|]. split; [done|]. split.
    { unfold draw_offset in *. rewrite (moving_before_S _ _ _ Hp), Hv, Hrs. nia. }
    exists ps'. split; [done|]. split; [done|]. split.
    + intros j Hj. apply Hrest. lia.
    + intros j q Hj Hq. destruct (decide (j = k)) as [->|Hne].
      * exists p. assert (q = p) as -> by congruence.
        split; [done|]. split; [by repeat split|]. split; [done | congruence].
      * apply Hdone; [lia | done].
Qed.

Lemma update_phase_exact s ps dims gb :
  particles s = Some ps -> search_dimension s = Some dims ->
  best s = Some gb -> length (location gb) = length dims ->
  all_ready dims ps ->
  fst (_update_particle random s) = Ok tt /\
  updated_up_to random s ps dims gb (length ps) (snd (_update_particle random s)).
Proof.
  intros Hps Hd Hgb Hlgb Hready.
  assert (Heq : _update_particle random s
                = for_each (seq 0 (length ps)) (_update_particle_body random) s).
  { unfold _update_particle, for_particles. run_monad. by rewrite Hps. }
  rewrite Heq.
  apply (for_each_seq_inv (updated_up_to random s ps dims gb)).
  - split; [reflexivity|]. split; [done|]. split.
    { unfold draw_offset, moving_before. simpl. lia. }
    exists ps. split; [done|]. split; [done|]. split; [done|]. intros; lia.
  - intros k s' Hk. apply update_body_step; [done..|lia].
Qed.

End UpdatePhase.

(** [first_fittest] is what its name says: a member of the list, at least
    as fit as every member, and strictly fitter than every member before
    it. *)
Lemma first_fittest_spec fls m :
  first_fittest fls = Some m ->
  exists i, fls !! i = Some m /\
    (forall j fl, fls !! j = Some fl -> (fitness fl <= fitness m)%Q) /\
    (forall j fl, j < i -> fls !! j = Some fl -> (fitness fl < fitness m)%Q).
Proof.
  revert m. induction fls as [|fl0 fls IH]; intros m Hm; simpl in Hm; [done|].
  destruct (first_fittest fls) as [m'|] eqn:Hrest.
  - destruct (IH m' eq_refl) as (i & Hi & Hmax & Hfirst).
    destruct (Qlt_bool (fitness fl0) (fitness m')) eqn:Hlt; injection Hm as <-.
    + apply Qlt_bool_lt in Hlt. exists (S i). split; [done|]. split.
      * intros [|j] fl Hj; simpl in Hj; [|by eapply Hmax].
        injection Hj as <-. by apply Qlt_le_weak.
      * intros [|j] fl Hji Hj; simpl in Hj.
        -- by injection Hj as <-.
        -- eapply Hfirst; [|done]. lia.
    + apply Qlt_bool_ge in Hlt. exists 0. split; [done|]. split.
      * intros [|j] fl Hj; simpl in Hj.
        -- injection Hj as <-. apply Qle_refl.
        -- eapply Qle_trans; [by eapply Hmax | done].
      * intros j fl Hj. lia.
  - injection Hm as <-. destruct fls as [|fl1 fls]; [|simpl in Hrest].
    + exists 0. split; [done|]. split.
      * intros [|j] fl Hj; simpl in Hj; [|done]. injection Hj as <-. apply Qle_refl.
      * intros j fl Hj. lia.
    + destruct (first_fittest fls) as [m1|]; [destruct (Qlt_bool _ _)|]; done.
Qed.

(** ** The statements of [run] before the loop *)

#[export] Instance same_previous_best_preorder : PreOrder same_previous_best.
Proof.
  split; [intros s; reflexivity|].
  intros s1 s2 s3 H1 H2. unfold same_previous_best in *. congruence.
Qed.

Section Prologue.
Variable random : nat -> Q.
Variable np_random : nat -> nat.

Ltac keeps_step :=
  first
    [ apply (keeps_ret same_previous_best)
    | apply (keeps_raise same_previous_best)
    | apply (keeps_gets same_previous_best)
    | apply (keeps_lift same_previous_best)
    | apply (keeps_modify same_previous_best); intros ?; reflexivity
    | apply (keeps_bind same_previous_best); [|intros ?] ].

Lemma new_particles_previous_best n :
  keeps same_previous_best (new_particles random n).
Proof.
  induction n as [|n IH]; simpl; [apply (keeps_ret same_previous_best)|].
  unfold _init_position, _init_velocity, get_search_dimension.
  repeat keeps_step. exact IH.
Qed.

Lemma _init_informants_previous_best :
  keeps same_previous_best (_init_informants np_random).
Proof.
  apply keeps_for_particles; [apply _|]. intros k.
  unfold _init_informants_body, get_particle, put_particle, get_particles.
  repeat keeps_step.
Qed.

Lemma run_prologue_previous_best :
  keeps same_previous_best (run_prologue random np_random).
Proof.
  unfold run_prologue, _instantiate_particles.
  keeps_step; [keeps_step|].
  destruct (negb a); [keeps_step|].
  keeps_step; [|keeps_step].
  keeps_step; [keeps_step|].
  destruct a0; [|keeps_step].
  keeps_step; [keeps_step|].
  keeps_step; [apply new_particles_previous_best|].
  keeps_step; [keeps_step|]. apply _init_informants_previous_best.
Qed.

End Prologue.

(** ** The frozen-particle rule *)

Section FrozenParticle.
Variable random : nat -> Q.

Lemma frozen_body_skips k s p :
  particle_at s k = Some p -> any_nonzero (velocity p) = false ->
  _pso_assess_fitness_body k s = (Ok tt, s) /\
  _update_particle_body random k s = (Ok tt, s) /\
  _move_particles_body random k s = (Ok tt, s).
Proof.
  unfold particle_at. intros Hp Hz.
  rewrite _pso_assess_fitness_body_unfold, _update_particle_body_unfold,
    _move_particles_body_unfold.
  destruct (particles s) as [ps|]; simpl in Hp; [|done].
  rewrite Hp, Hz. done.
Qed.

End FrozenParticle.

(** C3. A particle whose velocity is exactly zero in every dimension is
    skipped by the assessment, the velocity update and the move (each loop
    body returns at once with the optimiser untouched), and from then on
    its velocity, position, fitness_loc and personal best stay as they are
    for as many iterations as the run goes on, whether the run completes or
    raises. *)
Theorem frozen_particle_stays_frozen (random : nat -> Q) s k p :
  particle_at s k = Some p ->
  any_nonzero (velocity p) = false ->
  (_pso_assess_fitness_body k s = (Ok tt, s) /\
   _update_particle_body random k s = (Ok tt, s) /\
   _move_particles_body random k s = (Ok tt, s)) /\
  (exists p', particle_at (snd (sweep random s)) k = Some p' /\ same_motion p p') /\
  forall fuel c, exists p',
    particle_at (snd (run_loop random fuel c s)) k = Some p' /\ same_motion p p'.
Proof.
  intros Hp Hz. split; [exact (frozen_body_skips random k s p Hp Hz)|]. split.
  - destruct (particles_rel_lookup _ _ _ _ _ (sweep_frozen_kept random s) Hp)
      as (p' & Hp' & Hk).
    exists p'. split; [done | by apply Hk].
  - intros fuel c.
    destruct (particles_rel_lookup _ _ _ _ _
                (run_loop_keeps random (particles_rel frozen_kept) fuel c
                   (sweep_frozen_kept random) s) Hp) as (p' & Hp' & Hk).
    exists p'. split; [done | by apply Hk].
Qed.

Lemma frozen_particle_stays_frozen_witness :
  exists p',
    particle_at
      (snd (run_loop Demo.half 3 (mkController 0 3)
              (Demo.swarm REFUSE (-1, 1)%Q (1 # 10)%Q))) 0 = Some p' /\
    same_motion Demo.still p'.
Proof.
  apply (frozen_particle_stays_frozen Demo.half
           (Demo.swarm REFUSE (-1, 1)%Q (1 # 10)%Q) 0 Demo.still);
    reflexivity.
Defined.

(** ** The swarm-wide best *)

(** C5. Within a run the fitness of the swarm-wide best never decreases:
    over one sweep (assess, update, move), and over any number of
    iterations of the loop of [run], the best afterwards is at least as fit
    as the best before. *)
Theorem best_fitness_non_decreasing (random : nat -> Q) s b :
  best s = Some b ->
  (exists b', best (snd (sweep random s)) = Some b' /\
              (fitness b <= fitness b')%Q) /\
  forall fuel c, exists b',
    best (snd (run_loop random fuel c s)) = Some b' /\
    (fitness b <= fitness b')%Q.
Proof.
  intros Hb. split.
  - apply (sweep_best random s b Hb).
  - intros fuel c.
    apply (run_loop_keeps random best_not_worse fuel c (sweep_best random) s b Hb).
Qed.

Lemma best_fitness_non_decreasing_witness :
  exists b',
    best (snd (sweep Demo.half (Demo.swarm REFUSE (-1, 1)%Q (1 # 10)%Q))) = Some b' /\
    (fitness sentinel_run <= fitness b')%Q.
Proof.
  apply (best_fitness_non_decreasing Demo.half
           (Demo.swarm REFUSE (-1, 1)%Q (1 # 10)%Q) sentinel_run).
  reflexivity.
Defined.

(** ** The frame of the velocity update *)

(** C9. The velocity-update phase leaves the position, the fitness_loc and
    the personal best of every particle as they were (it writes velocities
    and the velocity history only), and leaves the swarm-wide best alone;
    the assessment phase before it does not move a particle either, so
    positions change in the move phase only. *)
Theorem velocity_update_leaves_positions (random : nat -> Q) s k p :
  particle_at s k = Some p ->
  (exists p', particle_at (snd (_update_particle random s)) k = Some p' /\
     position p' = position p /\ fitness_loc p' = fitness_loc p /\
     personal_fittest_loc p' = personal_fittest_loc p) /\
  best (snd (_update_particle random s)) = best s /\
  previous_best (snd (_update_particle random s)) = previous_best s /\
  (exists p', particle_at (snd (_pso_assess_fitness s)) k = Some p' /\
     position p' = position p).
Proof.
  intros Hp. repeat split.
  - destruct (particles_rel_lookup _ _ _ _ _
                (update_phase_particles random same_but_velocity
                   (fun s ps p _ => update_one_frame random s ps p) s) Hp)
      as (p' & Hp' & H1 & H2 & H3 & _).
    exists p'. done.
  - apply update_phase_best.
  - apply update_phase_best.
  - destruct (particles_rel_lookup _ _ _ _ _ (assess_phase_shape s) Hp)
      as (p' & Hp' & H1 & _).
    exists p'. done.
Qed.

Lemma velocity_update_leaves_positions_witness :
  exists p',
    particle_at (snd (_update_particle Demo.half
                        (Demo.swarm REFUSE (-1, 1)%Q (1 # 10)%Q))) 1 = Some p' /\
    position p' = position Demo.mover /\
    fitness_loc p' = fitness_loc Demo.mover /\
    personal_fittest_loc p' = personal_fittest_loc Demo.mover.
Proof.
  apply (velocity_update_leaves_positions Demo.half
           (Demo.swarm REFUSE (-1, 1)%Q (1 # 10)%Q) 1 Demo.mover).
  reflexivity.
Defined.

(** ** Positions and bounds *)

(** C2. Under RANDOMREINIT and REFUSE, when every bound pair has
    [low <= high] and every particle starts within the bounds (its velocity
    having one component per dimension), every coordinate of every particle
    lies within the bounds of its dimension after the move phase, after a
    whole sweep, and after any number of iterations of the loop of [run].
    The draws of [random.random()] are taken in the unit interval. *)
Theorem positions_stay_within_bounds (random : nat -> Q) dims s :
  (forall n, (0 <= random n)%Q /\ (random n <= 1)%Q) ->
  boundary_policy s = RANDOMREINIT \/ boundary_policy s = REFUSE ->
  search_dimension s = Some dims ->
  Forall ordered dims ->
  all_particles (in_range dims) s ->
  all_particles (in_range dims) (snd (_move_particles random s)) /\
  all_particles (in_range dims) (snd (sweep random s)) /\
  forall fuel c, all_particles (in_range dims) (snd (run_loop random fuel c s)).
Proof.
  intros Hr Hpol Hd Hord Hall.
  assert (Hs : swarm_in_range dims s).
  { split; [done|]. split; [|done]. destruct Hpol as [-> | ->]; done. }
  split; [|split].
  - apply (move_phase_in_range random Hr dims s Hs).
  - apply (sweep_in_range random Hr dims s Hs).
  - intros fuel c.
    apply (run_loop_keeps random (preserves (swarm_in_range dims)) fuel c
             (sweep_in_range random Hr dims) s Hs).
Qed.

Lemma positions_stay_within_bounds_witness :
  all_particles (in_range [(-1, 1)%Q])
    (snd (_move_particles Demo.quarters (Demo.swarm RANDOMREINIT (-1, 1)%Q 8))).
Proof.
  apply (positions_stay_within_bounds Demo.quarters [(-1, 1)%Q]
           (Demo.swarm RANDOMREINIT (-1, 1)%Q 8)).
  - intros n. unfold Demo.quarters. destruct (Nat.even n); split; discriminate.
  - left. reflexivity.
  - reflexivity.
  - repeat constructor. discriminate.
  - intros [|[|k]] p Hp; simpl in Hp; [injection Hp as <-..|discriminate];
      (split; [repeat constructor; discriminate | reflexivity]).
Defined.

(** ** A zero jump size *)




(** ** The default bound *)



(** ** The BOUNCE policy *)

(** C4, as stated, fails twice.  In a run under BOUNCE with bounds
    [(-1, 1)] and jump size [3/2] the loop raises [NotImplementedError] when
    the candidate of the second particle leaves the bounds; by then the
    first particle has moved from [-1/2] to [13/16] and the velocity update
    has rewritten both velocities.  And with jump size [1] the same run
    completes without any error. *)
Lemma bounce_raises_after_mutation :
  ~ (forall (random : nat -> Q) fuel c (s : PSO) (k : nat) (p p' : Particle),
       boundary_policy s = BOUNCE ->
       fst (run_loop random fuel c s) = Raise NotImplementedError ->
       particle_at s k = Some p ->
       particle_at (snd (run_loop random fuel c s)) k = Some p' ->
       Forall2 Qeq (position p') (position p) /\
       Forall2 Qeq (velocity p') (velocity p)) /\
  exists b, fst (run Demo.thirds Demo.np_count Scenario.bounce_short) = Ok b.
Proof.
  split.
  - intros H.
    assert (exists p, particle_at Scenario.bounce_started 0 = Some p /\
                      position p = [-2 # 4]%Q) as (p & Hp & Hx)
      by (vm_compute; eexists; split; reflexivity).
    assert (exists p' x,
              particle_at (snd (run_loop Demo.thirds 1 (mkController 0 1)
                                  Scenario.bounce_started)) 0 = Some p' /\
              position p' = [x] /\ ~ (x == -2 # 4)%Q) as (p' & x & Hp' & Hx' & Hne).
    { eexists _, _. split; [vm_compute; reflexivity|].
      split; [vm_compute; reflexivity|]. intros Hq. vm_compute in Hq. discriminate. }
    destruct (H Demo.thirds 1%nat (mkController 0 1) Scenario.bounce_started
                0 p p') as [Hbad _]; [reflexivity | by vm_compute | done..|].
    rewrite Hx, Hx' in Hbad.
    inversion Hbad as [|? ? ? ? Hq _]. exact (Hne Hq).
  - vm_compute. eexists. reflexivity.
Qed.

(** C4, amended.  Under BOUNCE the move phase is [bounce_all]: in swarm
    order each moving particle whose candidate
    [position + epsilon * velocity] passes the in-bounds test in every
    dimension moves to that candidate, and the first moving particle with a
    coordinate out of bounds stops the phase with [NotImplementedError],
    itself and every later particle keeping their positions.  No other
    exception can surface, no position is ever computed by the reflection
    arithmetic, the generator is not consulted, and the move phase changes no
    velocity.  (Positions of earlier particles, and all velocities, have
    been changed by then; a phase in which every candidate fits raises
    nothing.) *)
Theorem bounce_raises_in_move_phase (random : nat -> Q) dims s ps :
  particles s = Some ps ->
  search_dimension s = Some dims ->
  boundary_policy s = BOUNCE ->
  Forall (shaped dims) ps ->
  _move_particles random s
    = (fst (bounce_all (epsilon s) dims ps),
       set_particles (Some (snd (bounce_all (epsilon s) dims ps))) s) /\
  (forall e, fst (_move_particles random s) = Raise e -> e = NotImplementedError) /\
  Forall2 (fun p p' => velocity p' = velocity p) ps
    (snd (bounce_all (epsilon s) dims ps)).
Proof.
  intros Hps Hd Hpol Hsh.
  assert (Heq : _move_particles random s
                = (fst (bounce_all (epsilon s) dims ps),
                   set_particles (Some (snd (bounce_all (epsilon s) dims ps))) s)).
  { pose proof (bounce_phase random dims ps [] s Hps Hd Hpol Hsh) as Hb.
    simpl in Hb.
    unfold _move_particles, for_particles. run_monad. rewrite Hps. simpl.
    rewrite Hb. by destruct (bounce_all _ _ _). }
  split; [exact Heq|]. split.
  - intros e. rewrite Heq. simpl. apply bounce_all_raise.
  - apply bounce_all_velocity.
Qed.

Lemma bounce_raises_in_move_phase_witness :
  fst (_move_particles Demo.thirds Scenario.bounce_before_move)
    = Raise NotImplementedError.
Proof.
  edestruct (bounce_raises_in_move_phase Demo.thirds [(-1, 1)%Q]
               Scenario.bounce_before_move) as (Heq & _ & _).
  - vm_compute. reflexivity.
  - reflexivity.
  - reflexivity.
  - repeat constructor.
  - rewrite Heq. vm_compute. reflexivity.
Defined.

(** ** The informant topology *)

(** C7. For a swarm of [S] particles and [0 <= K < S] informants,
    instantiation succeeds and leaves a swarm of [S] particles in which the
    informants of every particle are exactly [K] distinct particles of the
    swarm, none of them the particle itself; and no iteration of the loop of
    [run] changes the informants of any particle. *)
Theorem informants_are_distinct_others_and_fixed
    (random : nat -> Q) (np_random : nat -> nat) s dims f :
  pso_fitness_fn s = Some f ->
  search_dimension s = Some dims ->
  (0 <= num_informants s)%Z ->
  (num_informants s < swarm_size s)%Z ->
  fst (_instantiate_particles random np_random s) = Ok tt /\
  (exists ps,
     particles (snd (_instantiate_particles random np_random s)) = Some ps /\
     Z.of_nat (length ps) = swarm_size s /\
     forall k p, ps !! k = Some p ->
       exists infs,
         informants p = Some infs /\
         Z.of_nat (length infs) = num_informants s /\
         NoDup infs /\ (k ∉ infs) /\ (forall j, j ∈ infs -> j < length ps)) /\
  (forall s1 k p fuel c,
     particle_at s1 k = Some p ->
     exists p', particle_at (snd (run_loop random fuel c s1)) k = Some p' /\
                informants p' = informants p).
Proof.
  intros Hf Hd H0 Hsize.
  destruct (_instantiate_particles_wired random np_random s dims f Hf Hd H0 Hsize)
    as (Hok & _ & ps & Hps & Hlen & Hwired).
  split; [done|]. split.
  - exists ps. split; [done|]. split; [lia|].
    intros k p Hp. rewrite Hlen. apply (Hwired k p); [|done].
    rewrite <- Hlen. eapply lookup_lt_Some; eauto.
  - intros s1 k p fuel c Hp.
    apply (particles_rel_lookup _ _ _ _ _
             (run_loop_keeps random (particles_rel same_informants) fuel c
                (sweep_same_informants random) s1) Hp).
Qed.

Lemma informants_are_distinct_others_and_fixed_witness :
  fst (_instantiate_particles Demo.thirds Demo.np_count
         (Demo.configured 4 2 (-1, 1)%Q 1 RANDOMREINIT 1 Demo.neg_square))
    = Ok tt.
Proof.
  apply (informants_are_distinct_others_and_fixed Demo.thirds Demo.np_count
           (Demo.configured 4 2 (-1, 1)%Q 1 RANDOMREINIT 1 Demo.neg_square)
           [(-1, 1)%Q] Demo.neg_square);
    [reflexivity | reflexivity | discriminate | reflexivity].
Defined.

(** ** The velocity update *)




(** ** Between two runs *)

(** C6.  The statements of [run] before the loop assign [self.best] only;
    they never write [self.previous_best].  On an optimiser that has
    completed one run, the second run starts its loop with [best] at the
    sentinel [FitnessLoc([], -9999.0)] and with [previous_best] still the
    FitnessLoc left by the first run (location [-1/2]), not a sentinel. *)
Theorem previous_best_survives_into_next_run :
  (forall (random : nat -> Q) (np_random : nat -> nat) s,
     previous_best (snd (run_prologue random np_random s)) = previous_best s) /\
  fst (run_prologue Demo.thirds Demo.np_count Scenario.after_first_run) = Ok tt /\
  best (snd (run_prologue Demo.thirds Demo.np_count Scenario.after_first_run))
    = Some sentinel_run /\
  exists fl,
    previous_best
      (snd (run_prologue Demo.thirds Demo.np_count Scenario.after_first_run))
      = Some fl /\
    location fl = [-2 # 4]%Q /\ fl <> sentinel_init /\ fl <> sentinel_run.
Proof.
  split; [|split; [|split]].
  - intros random np_random s. apply run_prologue_previous_best.
  - vm_compute. reflexivity.
  - vm_compute. reflexivity.
  - eexists. split; [vm_compute; reflexivity|].
    split; [reflexivity|]. split; discriminate.
Qed.

(** * Further properties of the optimiser *)

(** ** [set_search_dimensions] and the preconditions of [run] *)

Section RunPreconditions.
Variable random : nat -> Q.
Variable np_random : nat -> nat.

Lemma run_unset s :
  search_dimension_set s = false -> run random np_random s = (Raise ValueError, s).
Proof.
  intros Hset. unfold run, run_prologue. run_monad. by rewrite Hset.
Qed.

(** An argument of [set_search_dimensions] that is neither an [int] nor a
    [list] raises [ValueError], keeps the dimensions as they were and clears
    the flag, so that a later [run] raises [ValueError] and touches nothing,
    even when valid dimensions had been set before. *)
Theorem invalid_dimensions_block_run s :
  let s1 := snd (set_search_dimensions DimOther s) in
  fst (set_search_dimensions DimOther s) = Raise ValueError /\
  search_dimension s1 = search_dimension s /\
  search_dimension_set s1 = false /\
  particles s1 = particles s /\
  run random np_random s1 = (Raise ValueError, s1).
Proof.
  simpl. split; [done|]. split; [done|]. split; [done|]. split; [done|].
  by apply run_unset.
Qed.

(** [run] before [set_fitness_fn] raises [ValueError] at instantiation and
    leaves the optimiser exactly as it was: no particle is created and the
    best is not reset. *)
Theorem run_without_fitness_fn s :
  search_dimension_set s = true ->
  pso_fitness_fn s = None ->
  run random np_random s = (Raise ValueError, s).
Proof.
  intros Hset Hf. unfold run, run_prologue, _instantiate_particles. run_monad.
  rewrite Hset. simpl. by rewrite Hf.
Qed.

Lemma run_prologue_best s :
  fst (run_prologue random np_random s) = Ok tt ->
  best (snd (run_prologue random np_random s)) = Some sentinel_run.
Proof.
  unfold run_prologue. run_monad.
  destruct (negb (search_dimension_set s)); [done|].
  destruct (_instantiate_particles random np_random s) as [[[]|e] s1]; done.
Qed.

Lemma run_unfold s :
  run random np_random s
  = match run_prologue random np_random s with
    | (Ok _, s1) =>
        match run_loop random (Z.to_nat (max_iter s1))
                (mkController 0 (max_iter s1)) s1 with
        | (Ok _, s2) => (Ok (best s2), s2)
        | (Raise e, s2) => (Raise e, s2)
        end
    | (Raise e, s1) => (Raise e, s1)
    end.
Proof.
  unfold run. run_monad.
  destruct (run_prologue random np_random s) as [[[]|e] s1]; [|done].
  by destruct (run_loop random _ _ s1) as [[c|e] s2].
Qed.

Lemma run_prologue_unfold s :
  run_prologue random np_random s
  = if negb (search_dimension_set s) then (Raise ValueError, s)
    else match _instantiate_particles random np_random s with
         | (Ok _, s1) => (Ok tt, set_best (Some sentinel_run) s1)
         | (Raise e, s1) => (Raise e, s1)
         end.
Proof.
  unfold run_prologue. run_monad.
  destruct (negb (search_dimension_set s)); [done|].
  by destruct (_instantiate_particles random np_random s) as [[[]|e] s1].
Qed.

(** Whenever [run] returns, it returns the swarm-wide best of the final
    state, and that FitnessLoc is at least as fit as the sentinel
    [FitnessLoc([], -9999.0)] to which [run] sets the best before its
    loop. *)
Theorem run_returns_best_above_sentinel s b :
  fst (run random np_random s) = Ok b ->
  exists fl, b = Some fl /\ best (snd (run random np_random s)) = Some fl /\
             (fitness sentinel_run <= fitness fl)%Q.
Proof.
  rewrite run_unfold.
  pose proof (run_prologue_best s) as Hbest.
  destruct (run_prologue random np_random s) as [[[]|e] s1]; simpl in *; [|done].
  specialize (Hbest eq_refl).
  pose proof (run_loop_keeps random best_not_worse (Z.to_nat (max_iter s1))
                (mkController 0 (max_iter s1)) (sweep_best random) s1
                sentinel_run Hbest) as (fl & Hfl & Hle).
  destruct (run_loop random _ _ s1) as [[c|e] s2]; simpl in *; [|done].
  intros [= <-]. exists fl. done.
Qed.

End RunPreconditions.

Lemma run_without_fitness_fn_witness :
  run Demo.thirds Demo.np_count
    (snd (set_search_dimensions (DimInt 2)
            (PSO_init 3 1 (-1, 1)%Q 1 1 1 1 1 RANDOMREINIT 5)))
  = (Raise ValueError,
     snd (set_search_dimensions (DimInt 2)
            (PSO_init 3 1 (-1, 1)%Q 1 1 1 1 1 RANDOMREINIT 5))).
Proof.
  apply (run_without_fitness_fn Demo.thirds Demo.np_count); reflexivity.
Defined.

Lemma run_returns_best_above_sentinel_witness :
  exists fl,
    Some {| location := [0 # 2]; fitness := 0 # 4 |} = Some fl /\
    best (snd (run Demo.thirds Demo.np_count
                 (Demo.configured 2 1 (-1, 1)%Q 1 RANDOMREINIT 1 Demo.neg_square)))
      = Some fl /\
    (fitness sentinel_run <= fitness fl)%Q.
Proof.
  apply (run_returns_best_above_sentinel Demo.thirds Demo.np_count
           (Demo.configured 2 1 (-1, 1)%Q 1 RANDOMREINIT 1 Demo.neg_square)).
  vm_compute. reflexivity.
Defined.

(** ** A swarm at rest *)

Section AtRest.
Variable random : nat -> Q.

Lemma for_each_skip {X} (body : X -> M unit) (xs : list X) s :
  (forall x, x ∈ xs -> body x s = (Ok tt, s)) ->
  for_each xs body s = (Ok tt, s).
Proof.
  induction xs as [|x xs IH]; intros Hb; simpl; [done|].
  unfold mbind, M_bind. rewrite Hb by apply list_elem_of_here.
  apply IH. intros y Hy. apply Hb. by apply list_elem_of_further.
Qed.

Lemma sweep_at_rest s ps :
  particles s = Some ps ->
  Forall (fun p => any_nonzero (velocity p) = false) ps ->
  sweep random s = (Ok tt, s).
Proof.
  intros Hps Hrest.
  assert (Hbody : forall k, k ∈ seq 0 (length ps) ->
            _pso_assess_fitness_body k s = (Ok tt, s) /\
            _update_particle_body random k s = (Ok tt, s) /\
            _move_particles_body random k s = (Ok tt, s)).
  { intros k Hk. apply elem_of_seq in Hk.
    destruct (lookup_lt_is_Some_2 ps k) as [p Hp]; [lia|].
    apply (frozen_body_skips random k s p).
    - unfold particle_at. by rewrite Hps.
    - by eapply (proj1 (Forall_lookup _ _) Hrest). }
  unfold sweep, _pso_assess_fitness, _update_particle, _move_particles,
    for_particles. run_monad. rewrite Hps. simpl.
  rewrite for_each_skip by (intros k Hk; apply Hbody, Hk). rewrite Hps. simpl.
  rewrite for_each_skip by (intros k Hk; apply Hbody, Hk). rewrite Hps. simpl.
  rewrite for_each_skip by (intros k Hk; apply Hbody, Hk). done.
Qed.

(** When every particle of the swarm has an all-zero velocity, a sweep
    returns without changing anything at all (no assessment, no draw of the
    generator), and so the loop of [run] leaves the optimiser exactly as it
    was however long it goes on: the swarm is stuck for good. *)
Theorem swarm_at_rest_is_stuck s ps :
  particles s = Some ps ->
  Forall (fun p => any_nonzero (velocity p) = false) ps ->
  sweep random s = (Ok tt, s) /\
  forall fuel c, snd (run_loop random fuel c s) = s.
Proof.
  intros Hps Hrest. split; [by eapply sweep_at_rest|].
  intros fuel. induction fuel as [|fuel IH]; intros c; simpl; [done|].
  destruct (terminate c); [done|].
  unfold mbind, M_bind. rewrite (sweep_at_rest s ps Hps Hrest).
  assert (Hd : snd (fitness_delta s) = s).
  { unfold fitness_delta. run_monad.
    by destruct (best s), (previous_best s). }
  destruct (fitness_delta s) as [[q|e] s1]; simpl in Hd; subst s1; [|done].
  apply IH.
Qed.

End AtRest.

Lemma swarm_at_rest_is_stuck_witness :
  sweep Demo.half
    (set_particles (Some [Demo.still; Demo.still]) (Demo.swarm REFUSE (-1, 1)%Q 1))
  = (Ok tt,
     set_particles (Some [Demo.still; Demo.still]) (Demo.swarm REFUSE (-1, 1)%Q 1)).
Proof.
  apply (swarm_at_rest_is_stuck Demo.half
           (set_particles (Some [Demo.still; Demo.still])
              (Demo.swarm REFUSE (-1, 1)%Q 1))
           [Demo.still; Demo.still]).
  - reflexivity.
  - repeat constructor.
Defined.

(** ** The personal best *)

#[export] Instance personal_not_worse_preorder : PreOrder personal_not_worse.
Proof.
  split.
  - intros p pb Hpb. exists pb. split; [done | by left].
  - intros p1 p2 p3 H12 H23 pb Hpb.
    destruct (H12 pb Hpb) as (pb2 & Hpb2 & Hor2).
    destruct (H23 pb2 Hpb2) as (pb3 & Hpb3 & Hor3).
    exists pb3. split; [done|].
    destruct Hor2 as [->|Hlt2]; [done|].
    destruct Hor3 as [->|Hlt3]; [by right|].
    right. by eapply Qlt_trans.
Qed.

Lemma assess_fitness_result p f :
  fitness_fn p = Some f ->
  let fl := mkFitnessLoc (position p) (f (position p)) in
  fst (assess_fitness p) = Ok fl /\
  fitness_loc (snd (assess_fitness p)) = Some fl /\
  personal_fittest_loc (snd (assess_fitness p))
  = match personal_fittest_loc p with
    | None => Some fl
    | Some pb => if Qlt_bool (fitness pb) (fitness fl) then Some fl else Some pb
    end.
Proof.
  intros Hf fl. subst fl. unfold assess_fitness. rewrite Hf. simpl.
  destruct (personal_fittest_loc p) as [pb|] eqn:Hpb; simpl.
  - rewrite Hpb. unfold FitnessLoc_gt. simpl.
    destruct (Qlt_bool (fitness pb) (f (position p))); simpl; done.
  - unfold FitnessLoc_gt. simpl.
    rewrite (Qlt_bool_false (f (position p)) (f (position p))) by apply Qle_refl.
    done.
Qed.

Lemma assess_fitness_personal p : personal_not_worse p (snd (assess_fitness p)).
Proof.
  intros pb Hpb. destruct (fitness_fn p) as [f|] eqn:Hf.
  - destruct (assess_fitness_result p f Hf) as (_ & _ & ->). rewrite Hpb.
    destruct (Qlt_bool (fitness pb) _) eqn:Hlt; eexists; split; try done.
    + right. by apply Qlt_bool_lt in Hlt.
    + by left.
  - unfold assess_fitness. rewrite Hf. simpl. exists pb. split; [done | by left].
Qed.

(** [Particle.assess_fitness] records the FitnessLoc of the current position,
    and the personal best changes on strict improvement only: a first
    assessment sets it, a strictly fitter assessment replaces it, an equal
    or worse one leaves it alone.  Over the whole loop of [run] the personal
    best of a particle is therefore kept or replaced by a strictly fitter
    one, never by a worse or an equally fit one. *)
Theorem personal_best_only_improves (random : nat -> Q) s k p pb :
  particle_at s k = Some p ->
  personal_fittest_loc p = Some pb ->
  (forall f, fitness_fn p = Some f ->
     let fl := mkFitnessLoc (position p) (f (position p)) in
     fst (assess_fitness p) = Ok fl /\
     fitness_loc (snd (assess_fitness p)) = Some fl /\
     personal_fittest_loc (snd (assess_fitness p))
     = if Qlt_bool (fitness pb) (fitness fl) then Some fl else Some pb) /\
  forall fuel c, exists p' pb',
    particle_at (snd (run_loop random fuel c s)) k = Some p' /\
    personal_fittest_loc p' = Some pb' /\
    (pb' = pb \/ (fitness pb < fitness pb')%Q).
Proof.
  intros Hp Hpb. split.
  - intros f Hf. destruct (assess_fitness_result p f Hf) as (H1 & H2 & H3).
    rewrite Hpb in H3. done.
  - intros fuel c.
    assert (Hsweep : keeps (particles_rel personal_not_worse) (sweep random)).
    { apply sweep_particles; [apply _|..].
      - intros q _. apply assess_fitness_personal.
      - intros s0 ps q _ pb0 Hpb0.
        destruct (update_one_frame random s0 ps q) as (_ & _ & Hsame & _).
        exists pb0. split; [congruence | by left].
      - intros s0 q _ pb0 Hpb0.
        destruct (move_one_frame random s0 q) as (_ & _ & Hsame & _).
        exists pb0. split; [congruence | by left]. }
    destruct (particles_rel_lookup _ _ _ _ _
                (run_loop_keeps random (particles_rel personal_not_worse)
                   fuel c Hsweep s) Hp) as (p' & Hp' & Hrel).
    destruct (Hrel pb Hpb) as (pb' & Hpb' & Hor).
    exists p', pb'. done.
Qed.

Lemma personal_best_only_improves_witness :
  exists p' pb',
    particle_at (snd (run_loop Demo.thirds 1 (mkController 0 1) Scenario.assessed))
      0 = Some p' /\
    personal_fittest_loc p' = Some pb' /\
    (pb' = {| location := [-2 # 4]; fitness := -4 # 16 |}
     \/ (fitness {| location := [-2 # 4]; fitness := -4 # 16 |} < fitness pb')%Q).
Proof.
  eapply (personal_best_only_improves Demo.thirds Scenario.assessed 0).
  - vm_compute. reflexivity.
  - reflexivity.
Defined.

(** ** What the assessment phase establishes *)

Lemma freshly_assessed_best s s' p p' :
  best_not_worse s s' -> freshly_assessed s p p' -> freshly_assessed s' p p'.
Proof.
  intros Hbest (f & gb & pb & Hf & Hfl & Hx & Hv & Hpb & Hle & Hgb & Hleg).
  destruct (Hbest gb Hgb) as (gb' & Hgb' & Hle').
  exists f, gb', pb. repeat split; try done. by eapply Qle_trans.
Qed.

Lemma assess_body_step ps k s :
  (forall j p, ps !! j = Some p -> any_nonzero (velocity p) = true ->
     is_Some (fitness_fn p)) ->
  k < length ps ->
  assessed_up_to ps k s ->
  fst (_pso_assess_fitness_body k s) = Ok tt /\
  assessed_up_to ps (S k) (snd (_pso_assess_fitness_body k s)).
Proof.
  intros Hfn Hk (ps' & Hps' & Hlen & Hrest & Hdone).
  destruct (lookup_lt_is_Some_2 ps k Hk) as [p Hp].
  assert (Hp' : ps' !! k = Some p) by (by rewrite Hrest).
  pose proof (assess_body_best k s) as Hmono.
  rewrite _pso_assess_fitness_body_unfold, Hps', Hp' in *.
  destruct (any_nonzero (velocity p)) eqn:Hv; simpl in *.
  - destruct (Hfn k p Hp Hv) as [f Hf].
    destruct (assess_fitness_result p f Hf) as (Hr & Hfl & Hpb).
    destruct (assess_fitness_frame p) as (Hx & Hvel & _).
    simpl in Hr, Hfl, Hpb.
    set (fl := {| location := position p; fitness := f (position p) |}) in *.
    assert (Hpers : exists pb, personal_fittest_loc (snd (assess_fitness p)) = Some pb
                               /\ (fitness fl <= fitness pb)%Q).
    { rewrite Hpb. destruct (personal_fittest_loc p) as [pb0|].
      - match goal with
        | |- context [Qlt_bool ?a ?b] => destruct (Qlt_bool a b) eqn:Hlt
        end.
        + exists fl. split; [done | apply Qle_refl].
        + exists pb0. split; [done | by apply Qlt_bool_ge].
      - exists fl. split; [done | apply Qle_refl]. }
    destruct Hpers as (pb & Hpb' & Hlepb).
    rewrite Hr in *. clear Hr.
    match goal with
    | |- context [if ?c then _ else _] => destruct c eqn:Hcond
    end; simpl in *.
    + split; [done|]. eexists. split; [done|]. split; [by rewrite length_insert|].
      split.
      * intros j Hj. rewrite list_lookup_insert_ne by lia. apply Hrest. lia.
      * intros j q Hj Hq Hvq. destruct (decide (j = k)) as [->|Hne].
        -- rewrite list_lookup_insert_eq by lia. eexists. split; [done|].
           assert (q = p) as -> by congruence.
           exists f, fl, pb. repeat split; try done. apply Qle_refl.
        -- rewrite list_lookup_insert_ne by done.
           destruct (Hdone j q) as (q' & Hq' & Hfresh); [lia | done..|].
           exists q'. split; [done|].
           eapply freshly_assessed_best; [|exact Hfresh]. exact Hmono.
    + split; [done|]. eexists. split; [done|]. split; [by rewrite length_insert|].
      split.
      * intros j Hj. rewrite list_lookup_insert_ne by lia. apply Hrest. lia.
      * intros j q Hj Hq Hvq. destruct (decide (j = k)) as [->|Hne].
        -- rewrite list_lookup_insert_eq by lia. eexists. split; [done|].
           assert (q = p) as -> by congruence.
           destruct (best s) as [b|] eqn:Hb; [|done].
           exists f, b, pb. repeat split; try done.
           apply Qlt_bool_ge. exact Hcond.
        -- rewrite list_lookup_insert_ne by done.
           destruct (Hdone j q) as (q' & Hq' & Hfresh); [lia | done..|].
           exists q'. split; [done|].
           eapply freshly_assessed_best; [|exact Hfresh]. exact Hmono.
  - split; [done|]. exists ps'. split; [done|]. split; [done|]. split.
    + intros j Hj. apply Hrest. lia.
    + intros j q Hj Hq Hvq. destruct (decide (j = k)) as [->|Hne].
      * congruence.
      * apply Hdone; [lia | done..].
Qed.

(** When every moving particle carries a fitness function, the assessment
    phase completes, and afterwards every moving particle has the FitnessLoc
    of its current position as its fitness_loc, a personal best at least as
    fit as that, and the swarm-wide best is at least as fit as each of
    them; position and velocity are untouched. *)
Theorem assessment_covers_moving_particles s ps k p :
  particles s = Some ps ->
  (forall j q, ps !! j = Some q -> any_nonzero (velocity q) = true ->
     is_Some (fitness_fn q)) ->
  ps !! k = Some p ->
  any_nonzero (velocity p) = true ->
  fst (_pso_assess_fitness s) = Ok tt /\
  exists p' f gb pb,
    particle_at (snd (_pso_assess_fitness s)) k = Some p' /\
    fitness_fn p = Some f /\
    fitness_loc p' = Some (mkFitnessLoc (position p) (f (position p))) /\
    position p' = position p /\ velocity p' = velocity p /\
    personal_fittest_loc p' = Some pb /\ (f (position p) <= fitness pb)%Q /\
    best (snd (_pso_assess_fitness s)) = Some gb /\
    (f (position p) <= fitness gb)%Q.
Proof.
  intros Hps Hfn Hp Hv.
  assert (Heq : _pso_assess_fitness s
                = for_each (seq 0 (length ps)) _pso_assess_fitness_body s).
  { unfold _pso_assess_fitness, for_particles. run_monad. by rewrite Hps. }
  rewrite Heq.
  destruct (for_each_seq_inv (assessed_up_to ps) _pso_assess_fitness_body
              (length ps) 0 s) as (Hok & ps' & Hps' & Hlen & _ & Hdone).
  - exists ps. split; [done|]. split; [done|]. split; [done|]. intros; lia.
  - intros j s' Hj. apply assess_body_step; [done | lia].
  - split; [done|].
    destruct (Hdone k p) as (p' & Hp' & f & gb & pb & Hfresh);
      [by eapply lookup_lt_Some | done..|].
    exists p', f, gb, pb. split; [|done].
    unfold particle_at. simpl in Hps'. by rewrite Hps'.
Qed.

Lemma assessment_covers_moving_particles_witness :
  fst (_pso_assess_fitness
         (snd (run_prologue Demo.thirds Demo.np_count
                 (Demo.configured 2 1 (-1, 1)%Q 1 RANDOMREINIT 1 Demo.neg_square))))
  = Ok tt.
Proof.
  eapply (assessment_covers_moving_particles _ _ 0).
  - vm_compute. reflexivity.
  - intros [|[|j]] q Hq _; simpl in Hq; [injection Hq as <-..|discriminate];
      eexists; reflexivity.
  - reflexivity.
  - reflexivity.
Defined.

(** ** The velocity history *)

(** Every pass of the loop of [_update_particle] over a moving particle
    appends exactly one vector to its [velocity_list].  The appended array
    is the one the loop then updates in place: after a pass that completes,
    the new last entry of the history is the new velocity, not the velocity
    before the update; after a pass that raises, the history has grown all
    the same and the velocity is the old one. *)
Theorem velocity_history_records_new_velocity (random : nat -> Q) s ps k p :
  particles s = Some ps ->
  ps !! k = Some p ->
  any_nonzero (velocity p) = true ->
  exists p' v,
    particle_at (snd (_update_particle_body random k s)) k = Some p' /\
    velocity_list p' = velocity_list p ++ [v] /\
    length v = length (velocity p) /\
    (fst (_update_particle_body random k s) = Ok tt -> velocity p' = v) /\
    (forall e, fst (_update_particle_body random k s) = Raise e ->
       velocity p' = velocity p).
Proof.
  intros Hps Hp Hv. rewrite _update_particle_body_unfold, Hps, Hp, Hv. simpl.
  assert (Hlt : k < length ps) by (by eapply lookup_lt_Some).
  assert (Hone : exists v,
            velocity_list (update_one random s ps p).1.2 = velocity_list p ++ [v] /\
            length v = length (velocity p) /\
            ((update_one random s ps p).1.1 = Ok tt ->
             velocity (update_one random s ps p).1.2 = v) /\
            (forall e, (update_one random s ps p).1.1 = Raise e ->
             velocity (update_one random s ps p).1.2 = velocity p)).
  { unfold update_one.
    destruct (informants p) as [infs|]; simpl; [|by eexists].
    destruct (scan_informants ps sentinel_init infs) as [ib|e]; simpl; [|by eexists].
    destruct (search_dimension s) as [dims|]; simpl; [|by eexists].
    pose proof (velocity_loop_length random s p (personal_fittest_loc p) ib
                  (seq 0 (length dims)) (velocity p) (random_state s)) as Hl.
    destruct (velocity_loop _ _ _ _ _ _ _ _) as [[[[]|e] v1] rs]; simpl in *;
      by eexists. }
  destruct (update_one random s ps p) as [[r p'] rs]; simpl in *.
  destruct Hone as (v & Hvl & Hlen & Hok & Herr).
  exists p', v. split; [|done].
  unfold particle_at. simpl. by rewrite list_lookup_insert_eq.
Qed.

Lemma velocity_history_records_new_velocity_witness :
  exists p' v,
    particle_at (snd (_update_particle_body Demo.half 1
                        (Demo.swarm REFUSE (-1, 1)%Q 1))) 1 = Some p' /\
    velocity_list p' = velocity_list Demo.mover ++ [v] /\
    length v = length (velocity Demo.mover) /\
    (fst (_update_particle_body Demo.half 1 (Demo.swarm REFUSE (-1, 1)%Q 1))
       = Ok tt -> velocity p' = v) /\
    (forall e,
       fst (_update_particle_body Demo.half 1 (Demo.swarm REFUSE (-1, 1)%Q 1))
         = Raise e -> velocity p' = velocity Demo.mover).
Proof.
  apply (velocity_history_records_new_velocity Demo.half
           (Demo.swarm REFUSE (-1, 1)%Q 1) [Demo.still; Demo.mover] 1 Demo.mover);
    reflexivity.
Defined.

(** ** The move phase, dimension by dimension *)

Section MoveByDimension.
Variable random : nat -> Q.

Lemma move_loop_reinit pos dims :
  forall index temp rs,
    index + length dims <= length temp ->
    exists temp',
      move_loop random RANDOMREINIT pos index dims temp rs
        = (Ok temp', rs + misfits dims (drop index temp)) /\
      length temp' = length temp /\
      (forall j, j < index -> temp' !! j = temp !! j) /\
      (forall i d t, dims !! i = Some d -> temp !! (index + i) = Some t ->
         temp' !! (index + i)
         = Some (if in_bounds d t then t
                 else uniform (fst d) (snd d)
                        (random (rs + misfits (take i dims) (drop index temp))))).
Proof.
  induction dims as [|d dims IH]; intros index temp rs Hlen;
    cbn [move_loop length] in *.
  - exists temp. destruct (drop index temp); simpl; rewrite Nat.add_0_r;
      repeat split; intros i d t Hi; done.
  - destruct (lookup_lt_is_Some_2 temp index) as [t0 Ht0]; [lia|].
    rewrite Ht0, (drop_S _ _ _ Ht0). cbn [misfits].
    destruct (in_bounds d t0) eqn:Hin.
    + destruct (IH (S index) temp rs) as (temp' & Hrun & Hl & Hlow & Hup); [lia|].
      exists temp'. split; [by rewrite Hrun|]. split; [done|]. split.
      * intros j Hj. apply Hlow. lia.
      * intros [|i] d0 t Hi Ht; cbn [take misfits] in *.
        -- injection Hi as <-. rewrite ?Nat.add_0_r in *.
           rewrite Hlow by lia. assert (t = t0) as -> by congruence.
           by rewrite Hin.
        -- cbn [lookup list_lookup] in Hi. rewrite Hin.
           replace (index + S i) with (S index + i) in * by lia.
           by apply Hup.
    + destruct (IH (S index) (<[index:=uniform (fst d) (snd d) (random rs)]> temp)
                  (rs + 1)) as (temp' & Hrun & Hl & Hlow & Hup).
      { rewrite length_insert. lia. }
      rewrite drop_insert_lt in Hrun, Hup by lia.
      rewrite length_insert in Hl.
      exists temp'. split; [rewrite Hrun; f_equal; lia|]. split; [done|]. split.
      * intros j Hj. rewrite Hlow by lia. apply list_lookup_insert_ne. lia.
      * intros [|i] d0 t Hi Ht; cbn [take misfits] in *.
        -- injection Hi as <-. rewrite ?Nat.add_0_r in *.
           rewrite Hlow by lia. assert (t = t0) as -> by congruence.
           rewrite Hin, list_lookup_insert_eq by lia. by rewrite ?Nat.add_0_r.
        -- cbn [lookup list_lookup] in Hi. rewrite Hin.
           replace (index + S i) with (S index + i) in * by lia.
           rewrite (Hup i d0 t Hi) by (rewrite list_lookup_insert_ne by lia; done).
           replace (rs + 1 + misfits (take i dims) (drop (S index) temp))
             with (rs + (1 + misfits (take i dims) (drop (S index) temp))) by lia.
           done.
Qed.

Lemma move_loop_refuse pos dims :
  forall index temp rs,
    index + length dims <= length temp ->
    index + length dims <= length pos ->
    exists temp',
      move_loop random REFUSE pos index dims temp rs = (Ok temp', rs) /\
      length temp' = length temp /\
      (forall j, j < index -> temp' !! j = temp !! j) /\
      (forall i d t x, dims !! i = Some d -> temp !! (index + i) = Some t ->
         pos !! (index + i) = Some x ->
         temp' !! (index + i) = Some (if in_bounds d t then t else x)).
Proof.
  induction dims as [|d dims IH]; intros index temp rs Hlen Hlenp;
    cbn [move_loop length] in *.
  - exists temp. repeat split. intros i d t x Hi. done.
  - destruct (lookup_lt_is_Some_2 temp index) as [t0 Ht0]; [lia|].
    destruct (lookup_lt_is_Some_2 pos index) as [x0 Hx0]; [lia|].
    rewrite Ht0.
    destruct (in_bounds d t0) eqn:Hin.
    + destruct (IH (S index) temp rs) as (temp' & Hrun & Hl & Hlow & Hup); [lia..|].
      exists temp'. split; [done|]. split; [done|]. split.
      * intros j Hj. apply Hlow. lia.
      * intros [|i] d0 t x Hi Ht Hx.
        -- injection Hi as <-. rewrite ?Nat.add_0_r in *.
           rewrite Hlow by lia. assert (t = t0) as -> by congruence.
           by rewrite Hin.
        -- cbn [lookup list_lookup] in Hi.
           replace (index + S i) with (S index + i) in * by lia.
           by apply Hup.
    + rewrite Hx0.
      destruct (IH (S index) (<[index:=x0]> temp) rs)
        as (temp' & Hrun & Hl & Hlow & Hup).
      { rewrite length_insert. lia. }
      { lia. }
      rewrite length_insert in Hl.
      exists temp'. split; [done|]. split; [done|]. split.
      * intros j Hj. rewrite Hlow by lia. apply list_lookup_insert_ne. lia.
      * intros [|i] d0 t x Hi Ht Hx.
        -- injection Hi as <-. rewrite ?Nat.add_0_r in *.
           rewrite Hlow by lia. assert (t = t0) as -> by congruence.
           assert (x = x0) as -> by congruence.
           rewrite Hin, list_lookup_insert_eq by lia. by rewrite ?Nat.add_0_r.
        -- cbn [lookup list_lookup] in Hi.
           replace (index + S i) with (S index + i) in * by lia.
           apply Hup; [done | | done].
           rewrite list_lookup_insert_ne by lia. done.
Qed.

(** The move of a moving particle under RANDOMREINIT resolves each dimension
    on its own: a coordinate of the candidate [position + epsilon*velocity]
    that passes the in-bounds test is kept, and one that fails is replaced by
    [uniform(d[0], d[1])] on the next draw of the generator.  The move
    consumes exactly one draw per coordinate out of bounds. *)
Theorem reinit_resolves_each_dimension dims s ps k p :
  particles s = Some ps ->
  ps !! k = Some p ->
  any_nonzero (velocity p) = true ->
  search_dimension s = Some dims ->
  boundary_policy s = RANDOMREINIT ->
  shaped dims p ->
  let cand := candidate (epsilon s) p in
  let s' := snd (_move_particles_body random k s) in
  fst (_move_particles_body random k s) = Ok tt /\
  random_state s' = random_state s + misfits dims cand /\
  exists p',
    particle_at s' k = Some p' /\ length (position p') = length dims /\
    forall i d c, dims !! i = Some d -> cand !! i = Some c ->
      position p' !! i
      = Some (if in_bounds d c then c
              else uniform (fst d) (snd d)
                     (random (random_state s + misfits (take i dims) cand))).
Proof.
  intros Hps Hp Hv Hd Hpol [Hlx Hlv] cand s'. subst s'.
  assert (Hlc : length cand = length dims).
  { unfold cand, candidate, np_scale. rewrite length_zip_with, length_map. lia. }
  assert (Hone : exists temp',
            move_one random s p
            = (Ok tt, update_position temp' p,
               random_state s + misfits dims cand) /\
            length temp' = length dims /\
            forall i d c, dims !! i = Some d -> cand !! i = Some c ->
              temp' !! i
              = Some (if in_bounds d c then c
                      else uniform (fst d) (snd d)
                             (random (random_state s
                                      + misfits (take i dims) cand)))).
  { unfold move_one, np_add. unfold np_scale at 1.
    rewrite length_map, Hlx, Hlv, Nat.eqb_refl, Hd, Hpol.
    fold (candidate (epsilon s) p). fold cand.
    destruct (move_loop_reinit (position p) dims 0 cand (random_state s))
      as (temp' & -> & Hl & _ & Hup); [simpl; lia|].
    rewrite drop_0 in *. exists temp'. split; [done|]. split; [congruence|].
    intros i d c Hi Hc. by apply (Hup i d c). }
  destruct Hone as (temp' & Hone & Hl & Hup).
  rewrite _move_particles_body_unfold, Hps, Hp, Hv, Hone. simpl.
  split; [done|]. split; [done|].
  eexists. split.
  { unfold particle_at. simpl.
    rewrite list_lookup_insert_eq by (by eapply lookup_lt_Some). done. }
  simpl. done.
Qed.

(** The move of a moving particle under REFUSE: a coordinate of the
    candidate that passes the in-bounds test is kept, one that fails is put
    back to the current coordinate of the position; the generator is not
    consulted. *)
Theorem refuse_resolves_each_dimension dims s ps k p :
  particles s = Some ps ->
  ps !! k = Some p ->
  any_nonzero (velocity p) = true ->
  search_dimension s = Some dims ->
  boundary_policy s = REFUSE ->
  shaped dims p ->
  let cand := candidate (epsilon s) p in
  let s' := snd (_move_particles_body random k s) in
  fst (_move_particles_body random k s) = Ok tt /\
  random_state s' = random_state s /\
  exists p',
    particle_at s' k = Some p' /\ length (position p') = length dims /\
    forall i d c x, dims !! i = Some d -> cand !! i = Some c ->
      position p !! i = Some x ->
      position p' !! i = Some (if in_bounds d c then c else x).
Proof.
  intros Hps Hp Hv Hd Hpol [Hlx Hlv] cand s'. subst s'.
  assert (Hlc : length cand = length dims).
  { unfold cand, candidate, np_scale. rewrite length_zip_with, length_map. lia. }
  assert (Hone : exists temp',
            move_one random s p
            = (Ok tt, update_position temp' p, random_state s) /\
            length temp' = length dims /\
            forall i d c x, dims !! i = Some d -> cand !! i = Some c ->
              position p !! i = Some x ->
              temp' !! i = Some (if in_bounds d c then c else x)).
  { unfold move_one, np_add. unfold np_scale at 1.
    rewrite length_map, Hlx, Hlv, Nat.eqb_refl, Hd, Hpol.
    fold (candidate (epsilon s) p). fold cand.
    destruct (move_loop_refuse (position p) dims 0 cand (random_state s))
      as (temp' & -> & Hl & _ & Hup); [simpl; lia..|].
    exists temp'. split; [done|]. split; [congruence|].
    intros i d c x Hi Hc Hx. by apply (Hup i d c x). }
  destruct Hone as (temp' & Hone & Hl & Hup).
  rewrite _move_particles_body_unfold, Hps, Hp, Hv, Hone. simpl.
  split; [done|]. split; [done|].
  eexists. split.
  { unfold particle_at. simpl.
    rewrite list_lookup_insert_eq by (by eapply lookup_lt_Some). done. }
  simpl. done.
Qed.

End MoveByDimension.

Lemma reinit_resolves_each_dimension_witness :
  fst (_move_particles_body Demo.quarters 1 (Demo.swarm RANDOMREINIT (-1, 1)%Q 8))
  = Ok tt.
Proof.
  apply (reinit_resolves_each_dimension Demo.quarters [(-1, 1)%Q]
           (Demo.swarm RANDOMREINIT (-1, 1)%Q 8) [Demo.still; Demo.mover] 1
           Demo.mover); try reflexivity.
  split; reflexivity.
Defined.

Lemma refuse_resolves_each_dimension_witness :
  fst (_move_particles_body Demo.quarters 1 (Demo.swarm REFUSE (-1, 1)%Q 8))
  = Ok tt.
Proof.
  apply (refuse_resolves_each_dimension Demo.quarters [(-1, 1)%Q]
           (Demo.swarm REFUSE (-1, 1)%Q 8) [Demo.still; Demo.mover] 1
           Demo.mover); try reflexivity.
  split; reflexivity.
Defined.

(** ** Instantiation *)

#[export] Instance same_but_informants_preorder : PreOrder same_but_informants.
Proof.
  split.
  - intros p. by repeat split.
  - intros p1 p2 p3 (?&?&?&?&?&?) (?&?&?&?&?&?). repeat split; congruence.
Qed.

#[export] Instance same_outside_topology_preorder : PreOrder same_outside_topology.
Proof.
  split.
  - intros s. repeat split; reflexivity.
  - intros s1 s2 s3 (H1 & H2 & H3 & H4 & H5) (H1' & H2' & H3' & H4' & H5').
    split; [etransitivity; eauto|]. split; [congruence|]. split; [congruence|].
    split; [congruence|]. etransitivity; eauto.
Qed.

Lemma length_uniform_each random dims rs :
  length (uniform_each random dims rs) = length dims.
Proof.
  revert rs. induction dims as [|d dims IH]; intros rs; simpl; [done|].
  by rewrite IH.
Qed.

Lemma uniform_each_within random dims rs :
  (forall n, (0 <= random n)%Q /\ (random n <= 1)%Q) ->
  Forall ordered dims ->
  Forall2 (fun x d => within d x) (uniform_each random dims rs) dims.
Proof.
  intros Hr Hord. revert rs.
  induction Hord as [|d dims Hd Hord IH]; intros rs; simpl; constructor.
  - apply uniform_within; [done | apply Hr..].
  - apply IH.
Qed.

Section InstantiateExact.
Variable random : nat -> Q.
Variable np_random : nat -> nat.

Lemma new_particles_exact n :
  forall s dims,
    search_dimension s = Some dims ->
    exists ps,
      new_particles random n s
      = (Ok ps, set_random_state (random_state s + 2 * length dims * n) s) /\
      length ps = n /\
      forall k, k < n ->
        ps !! k
        = Some (fresh_particle random dims (pso_fitness_fn s) (random_state s) k).
Proof.
  induction n as [|n IH]; intros s dims Hd; cbn [new_particles].
  - exists []. split; [|split; [done | intros; lia]].
    unfold mret, M_ret. rewrite Nat.mul_0_r, Nat.add_0_r. by destruct s.
  - unfold mbind, M_bind.
    rewrite (_init_position_ok random s dims Hd).
    rewrite (_init_velocity_ok random _ dims) by done.
    unfold gets. cbn [random_state set_random_state pso_fitness_fn].
    destruct (IH (set_random_state
                    (random_state s + length dims + length dims)
                    (set_random_state (random_state s + length dims) s)) dims)
      as (ps & Hrun & Hlen & Hks); [done|].
    rewrite Hrun. unfold mret, M_ret. eexists. split; [|split].
    + apply f_equal2; [reflexivity|].
      replace (random_state s + 2 * length dims * S n)
        with (random_state s + length dims + length dims + 2 * length dims * n)
        by nia.
      by destruct s.
    + simpl. by rewrite Hlen.
    + intros [|k] Hk.
      * simpl. unfold fresh_particle. do 3 f_equal; lia.
      * simpl. rewrite Hks by lia. simpl. unfold fresh_particle.
        do 3 f_equal; nia.
Qed.

Lemma _init_informants_body_frame k :
  keeps same_outside_topology (_init_informants_body np_random k).
Proof.
  intros s. unfold _init_informants_body. run_monad.
  destruct (particles s) as [ps|] eqn:Hps; simpl; [|reflexivity].
  destruct (np_random_choice _ _ _ _) as [chosen|e]; simpl; [|reflexivity].
  rewrite ?Hps. simpl.
  destruct (ps !! k) as [p|] eqn:Hp; simpl.
  - rewrite ?Hps. simpl. split; [by destruct s|]. do 3 (split; [done|]).
    eapply particles_rel_insert; [apply _ | exact Hps | exact Hp | reflexivity |].
    by repeat split.
  - split; [by destruct s|]. do 3 (split; [done|]).
    intros j. unfold particle_at. simpl. rewrite Hps. reflexivity.
Qed.

Lemma _init_informants_frame :
  keeps same_outside_topology (_init_informants np_random).
Proof.
  apply keeps_for_particles; [apply _|]. apply _init_informants_body_frame.
Qed.

Lemma _instantiate_particles_unfold s dims f :
  pso_fitness_fn s = Some f -> search_dimension s = Some dims ->
  exists ps,
    _instantiate_particles random np_random s
    = _init_informants np_random
        (set_particles (Some ps)
           (set_random_state
              (random_state s + 2 * length dims * Z.to_nat (swarm_size s)) s)) /\
    length ps = Z.to_nat (swarm_size s) /\
    forall k, k < Z.to_nat (swarm_size s) ->
      ps !! k = Some (fresh_particle random dims (Some f) (random_state s) k).
Proof.
  intros Hf Hd.
  destruct (new_particles_exact (Z.to_nat (swarm_size s)) s dims Hd)
    as (ps & Hnew & Hlen & Hks).
  exists ps. split; [|split; [done|]].
  - unfold _instantiate_particles. run_monad. rewrite Hf, Hnew. done.
  - intros k Hk. rewrite Hks by done. by rewrite Hf.
Qed.

(** Instantiation starts every particle afresh.  With a fitness function,
    dimensions and [0 <= K < S], [_instantiate_particles] completes; the
    [k]-th particle has its position and then its velocity drawn by
    [uniform(d[0], d[1])] dimension by dimension (the velocity from the
    position bounds), no fitness_loc, no personal best and an empty velocity
    history; the generator has advanced by [2 * D * S] draws and the
    swarm-wide best is not touched. *)
Theorem instantiation_starts_afresh s dims f k :
  pso_fitness_fn s = Some f ->
  search_dimension s = Some dims ->
  (0 <= num_informants s)%Z ->
  (num_informants s < swarm_size s)%Z ->
  k < Z.to_nat (swarm_size s) ->
  let s' := snd (_instantiate_particles random np_random s) in
  fst (_instantiate_particles random np_random s) = Ok tt /\
  random_state s'
  = random_state s + 2 * length dims * Z.to_nat (swarm_size s) /\
  best s' = best s /\ previous_best s' = previous_best s /\
  exists p,
    particle_at s' k = Some p /\
    position p = uniform_each random dims (random_state s + 2 * length dims * k) /\
    velocity p
    = uniform_each random dims (random_state s + 2 * length dims * k + length dims) /\
    fitness_loc p = None /\ personal_fittest_loc p = None /\
    velocity_list p = [] /\ fitness_fn p = Some f.
Proof.
  intros Hf Hd H0 Hsize Hk s'. subst s'.
  destruct (_instantiate_particles_wired random np_random s dims f Hf Hd H0 Hsize)
    as (Hok & _).
  split; [done|].
  destruct (_instantiate_particles_unfold s dims f Hf Hd) as (ps & Heq & Hlen & Hks).
  rewrite Heq.
  destruct (_init_informants_frame
              (set_particles (Some ps)
                 (set_random_state
                    (random_state s + 2 * length dims * Z.to_nat (swarm_size s)) s)))
    as (_ & Hrs & Hb & Hpb & Hrel).
  split; [done|]. split; [done|]. split; [done|].
  destruct (particles_rel_lookup _ _ _ k
              (fresh_particle random dims (Some f) (random_state s) k) Hrel)
    as (p & Hp & Hx & Hv & Hfl & Hfn & Hpers & Hvl).
  { unfold particle_at. simpl. by apply Hks. }
  exists p. split; [done|]. rewrite Hx, Hv, Hfl, Hfn, Hpers, Hvl. done.
Qed.

End InstantiateExact.

Lemma instantiation_starts_afresh_witness :
  fst (_instantiate_particles Demo.thirds Demo.np_count
         (Demo.configured 4 2 (-1, 1)%Q 1 RANDOMREINIT 1 Demo.neg_square))
  = Ok tt.
Proof.
  apply (instantiation_starts_afresh Demo.thirds Demo.np_count
           (Demo.configured 4 2 (-1, 1)%Q 1 RANDOMREINIT 1 Demo.neg_square)
           [(-1, 1)%Q] Demo.neg_square 0);
    [reflexivity | reflexivity | discriminate | reflexivity | simpl; lia].
Defined.

(** ** [run] from start to end *)

Section WholeRun.
Variable random : nat -> Q.
Variable np_random : nat -> nat.

Section PrologueKeeps.
Context (R : relation PSO) `{!PreOrder R}.
Hypothesis R_random_state : forall n s, R s (set_random_state n s).
Hypothesis R_np_random_state : forall n s, R s (set_np_random_state n s).
Hypothesis R_particles : forall ps s, R s (set_particles ps s).
Hypothesis R_best : forall b s, R s (set_best b s).

Ltac keeps_step :=
  first
    [ apply (keeps_ret R)
    | apply (keeps_raise R)
    | apply (keeps_gets R)
    | apply (keeps_lift R)
    | apply (keeps_modify R); intros ?;
      first [apply R_random_state | apply R_np_random_state
            | apply R_particles | apply R_best]
    | apply (keeps_bind R); [|intros ?] ].

Lemma new_particles_keeps n : keeps R (new_particles random n).
Proof.
  induction n as [|n IH]; simpl; [apply (keeps_ret R)|].
  unfold _init_position, _init_velocity, get_search_dimension.
  repeat keeps_step. exact IH.
Qed.

Lemma _init_informants_keeps : keeps R (_init_informants np_random).
Proof.
  apply keeps_for_particles; [apply _|]. intros k.
  unfold _init_informants_body, get_particle, put_particle, get_particles.
  repeat keeps_step.
Qed.

Lemma run_prologue_keeps : keeps R (run_prologue random np_random).
Proof.
  unfold run_prologue, _instantiate_particles.
  keeps_step; [keeps_step|].
  destruct (negb a); [keeps_step|].
  keeps_step; [|keeps_step].
  keeps_step; [keeps_step|].
  destruct a0; [|keeps_step].
  keeps_step; [keeps_step|].
  keeps_step; [apply new_particles_keeps|].
  keeps_step; [keeps_step|]. apply _init_informants_keeps.
Qed.

Lemma run_keeps : keeps R (sweep random) -> keeps R (run random np_random).
Proof.
  intros Hsweep. unfold run.
  keeps_step; [apply run_prologue_keeps|].
  keeps_step; [keeps_step|].
  keeps_step; [by apply run_loop_keeps | keeps_step].
Qed.

End PrologueKeeps.

(** [run] never changes the configuration of the optimiser: swarm size,
    default bound, the five coefficients, boundary policy, iteration budget,
    search dimensions and their flag, number of informants and fitness
    function are the same after [run] as before, whether it returned or
    raised. *)
Theorem run_keeps_configuration s :
  same_settings s (snd (run random np_random s)).
Proof.
  apply (run_keeps same_settings).
  - intros n s0. by destruct s0.
  - intros n s0. by destruct s0.
  - intros ps s0. by destruct s0.
  - intros b s0. by destruct s0.
  - apply sweep_settings.
Qed.

Lemma run_prologue_in_range s dims f :
  (forall n, (0 <= random n)%Q /\ (random n <= 1)%Q) ->
  boundary_policy s <> BOUNCE ->
  search_dimension_set s = true ->
  pso_fitness_fn s = Some f ->
  search_dimension s = Some dims ->
  Forall ordered dims ->
  (0 <= num_informants s)%Z ->
  (num_informants s < swarm_size s)%Z ->
  fst (run_prologue random np_random s) = Ok tt /\
  swarm_in_range dims (snd (run_prologue random np_random s)).
Proof.
  intros Hr Hpol Hset Hf Hd Hord H0 Hsize.
  destruct (_instantiate_particles_wired random np_random s dims f Hf Hd H0 Hsize)
    as (Hok & _).
  destruct (_instantiate_particles_unfold random np_random s dims f Hf Hd)
    as (ps & Heq & Hlen & Hks).
  pose proof (_init_informants_frame np_random
                (set_particles (Some ps)
                   (set_random_state
                      (random_state s + 2 * length dims * Z.to_nat (swarm_size s))
                      s))) as (Hsame & _ & _ & _ & Hrel).
  rewrite <- Heq in Hsame, Hrel.
  rewrite run_prologue_unfold, Hset. simpl.
  destruct (_instantiate_particles random np_random s) as [[[]|e] s1];
    simpl in *; [|done].
  split; [done|].
  destruct Hsame as (_ & _ & _ & _ & _ & _ & _ & Hp & _ & Hd1 & _).
  simpl in Hp, Hd1.
  split; [simpl; congruence|]. split; [simpl; congruence|]. split; [done|].
  intros k p' Hp'.
  destruct (particles_rel_lookup_r same_but_informants _ s1 k p' Hrel)
    as (p & Hpk & Hx & Hv & _).
  { exact Hp'. }
  unfold particle_at in Hpk. simpl in Hpk.
  rewrite Hks in Hpk by (rewrite <- Hlen; by eapply lookup_lt_Some).
  injection Hpk as <-. split.
  - rewrite Hx. simpl. by apply uniform_each_within.
  - rewrite Hv. simpl. apply length_uniform_each.
Qed.


(** With at least one particle, a number of informants that is negative or
    not below the swarm size makes [run] raise [ValueError] while wiring
    the first particle ([np.random.choice] cannot draw that many distinct
    informants from the rest of the swarm); the best is then not reset. *)
Theorem run_rejects_too_many_informants s dims f :
  search_dimension_set s = true ->
  pso_fitness_fn s = Some f ->
  search_dimension s = Some dims ->
  (1 <= swarm_size s)%Z ->
  (num_informants s < 0)%Z \/ (swarm_size s <= num_informants s)%Z ->
  fst (run random np_random s) = Raise ValueError /\
  best (snd (run random np_random s)) = best s.
Proof.
  intros Hset Hf Hd HS HK.
  destruct (_instantiate_particles_unfold random np_random s dims f Hf Hd)
    as (ps & Heq & Hlen & _).
  assert (Hinst : exists s1,
            _instantiate_particles random np_random s = (Raise ValueError, s1) /\
            best s1 = best s).
  { rewrite Heq. unfold _init_informants, for_particles. run_monad.
    destruct (Z.to_nat (swarm_size s)) as [|n] eqn:Hn; [lia|].
    rewrite Hlen. simpl. unfold mbind, M_bind, _init_informants_body. run_monad.
    rewrite Hlen.
    assert (Hraise : np_random_choice np_random (delete 0 (seq 0 (S n)))
                       (num_informants s) (np_random_state s) = Raise ValueError).
    { unfold np_random_choice.
      destruct (Z.ltb_spec (num_informants s) 0); [done|].
      rewrite length_delete by (simpl; eauto).
      rewrite length_seq.
      destruct (Z.ltb_spec (Z.of_nat (S n - 1)) (num_informants s)); [done | lia]. }
    rewrite Hraise. eexists. split; [done|]. done. }
  destruct Hinst as (s1 & Hinst & Hb).
  rewrite run_unfold, run_prologue_unfold, Hset, Hinst. done.
Qed.

End WholeRun.


Lemma run_rejects_too_many_informants_witness :
  fst (run Demo.thirds Demo.np_count
         (Demo.configured 2 2 (-1, 1)%Q 1 RANDOMREINIT 1 Demo.neg_square))
  = Raise ValueError.
Proof.
  apply (run_rejects_too_many_informants Demo.thirds Demo.np_count
           (Demo.configured 2 2 (-1, 1)%Q 1 RANDOMREINIT 1 Demo.neg_square)
           [(-1, 1)%Q] Demo.neg_square);
    [reflexivity | reflexivity | reflexivity | discriminate | right; discriminate].
Defined.

(** ** Decoding a hyperparameter vector *)

Lemma py_round_bounds (lo hi : Z) (x : Q) :
  (inject_Z lo <= x)%Q -> (x <= inject_Z hi)%Q ->
  (lo <= py_round x <= hi)%Z.
Proof.
  intros Hlo Hhi.
  pose proof (Qfloor_le x) as Hfl.
  pose proof (Qfloor_resp_le _ _ Hlo) as Hl. rewrite Qfloor_Z in Hl.
  pose proof (Qfloor_resp_le _ _ Hhi) as Hh. rewrite Qfloor_Z in Hh.
  assert (Hup : (inject_Z (Qfloor x) < x)%Q -> (Qfloor x + 1 <= hi)%Z).
  { intros Hlt. assert (Qfloor x < hi)%Z; [|lia].
    rewrite Zlt_Qlt. lra. }
  unfold py_round, Qlt_bool.
  destruct (Qle_bool (1 # 2) (x - inject_Z (Qfloor x))) eqn:Hhalf; simpl.
  - apply Qle_bool_iff in Hhalf.
    assert (Qfloor x + 1 <= hi)%Z by (apply Hup; lra).
    destruct (Qle_bool (x - inject_Z (Qfloor x)) (1 # 2)); simpl; [|lia].
    destruct (Z.even (Qfloor x)); lia.
  - lia.
Qed.

Lemma decode_vec_seven v0 v1 v2 v3 v4 v5 v6 rest s :
  decode_vec (v0 :: v1 :: v2 :: v3 :: v4 :: v5 :: v6 :: rest) s
  = (Ok tt,
     set_epsilon v6 (set_delta v5 (set_gamma v4 (set_beta v3 (set_alpha v2
       (set_num_informants (py_round v1)
          (set_swarm_size (py_round v0) s))))))).
Proof. reflexivity. Qed.

(** decode_vec: the assignments run in order and nothing is rolled back.
    Each of the seven hyperparameters whose entry the vector has is
    overwritten (the first two rounded), the others keep their value, the
    call raises IndexError exactly when the vector has fewer than seven
    entries, entries beyond the seventh are ignored, and nothing else of the
    optimiser changes. *)
Theorem decode_vec_assigns_while_entries_last vec s :
  fst (decode_vec vec s)
    = (if decide (7 <= length vec) then Ok tt else Raise IndexError) /\
  swarm_size (snd (decode_vec vec s))
    = from_option py_round (swarm_size s) (vec !! 0) /\
  num_informants (snd (decode_vec vec s))
    = from_option py_round (num_informants s) (vec !! 1) /\
  alpha (snd (decode_vec vec s)) = default (alpha s) (vec !! 2) /\
  beta (snd (decode_vec vec s)) = default (beta s) (vec !! 3) /\
  gamma (snd (decode_vec vec s)) = default (gamma s) (vec !! 4) /\
  delta (snd (decode_vec vec s)) = default (delta s) (vec !! 5) /\
  epsilon (snd (decode_vec vec s)) = default (epsilon s) (vec !! 6) /\
  same_but_hyperparameters s (snd (decode_vec vec s)).
Proof.
  unfold same_but_hyperparameters, decode_vec, vec_at.
  destruct vec as [|v0 [|v1 [|v2 [|v3 [|v4 [|v5 [|v6 vec]]]]]]];
    run_monad; done.
Qed.

Section DecodedSwarm.
Variable random : nat -> Q.
Variable np_random : nat -> nat.

(** decode_vec, dimension_vec and _instantiate_particles: a vector whose
    entries lie within the ranges that dimension_vec gives decodes without
    an exception into a swarm size between 10 and 100 and a number of
    informants between 4 and 8, and with these the instantiation of the
    swarm succeeds, every particle getting its informants. *)
Theorem decoded_swarm_instantiates vec s dims f :
  Forall2 (fun v d => within d v) vec dimension_vec ->
  pso_fitness_fn s = Some f -> search_dimension s = Some dims ->
  fst (decode_vec vec s) = Ok tt /\
  (10 <= swarm_size (snd (decode_vec vec s)) <= 100)%Z /\
  (4 <= num_informants (snd (decode_vec vec s)) <= 8)%Z /\
  fst (_instantiate_particles random np_random (snd (decode_vec vec s)))
    = Ok tt /\
  wired_up_to (Z.to_nat (swarm_size (snd (decode_vec vec s))))
    (num_informants (snd (decode_vec vec s)))
    (Z.to_nat (swarm_size (snd (decode_vec vec s))))
    (snd (_instantiate_particles random np_random (snd (decode_vec vec s)))).
Proof.
  intros Hvec Hf Hd.
  assert (Hlen : length vec = 7) by (by rewrite (Forall2_length _ _ _ Hvec)).
  destruct vec as [|v0 [|v1 [|v2 [|v3 [|v4 [|v5 [|v6 [|]]]]]]]]; try done.
  apply Forall2_cons_1 in Hvec as [[H0l H0h] Hvec].
  apply Forall2_cons_1 in Hvec as [[H1l H1h] _].
  simpl in H0l, H0h, H1l, H1h.
  pose proof (py_round_bounds 10 100 v0 H0l H0h) as Hsize.
  pose proof (py_round_bounds 4 8 v1 H1l H1h) as Hinf.
  rewrite (decode_vec_seven v0 v1 v2 v3 v4 v5 v6 [] s).
  cbn [fst snd].
  set (s1 := set_epsilon _ _).
  assert (Hs : swarm_size s1 = py_round v0) by done.
  assert (Hk : num_informants s1 = py_round v1) by done.
  rewrite Hs, Hk.
  split; [done|]. split; [done|]. split; [done|].
  rewrite <- Hs, <- Hk.
  apply (_instantiate_particles_wired random np_random s1 dims f).
  - done.
  - done.
  - rewrite Hk. lia.
  - rewrite Hk, Hs. lia.
Qed.

End DecodedSwarm.

Lemma decoded_swarm_instantiates_witness :
  fst (decode_vec [10; 4; 1; 1; 1; 1; 1]%Q
         (Demo.configured 2 1 (-1, 1)%Q 1 RANDOMREINIT 1 Demo.neg_square))
    = Ok tt /\
  (10 <= swarm_size (snd (decode_vec [10; 4; 1; 1; 1; 1; 1]%Q
         (Demo.configured 2 1 (-1, 1)%Q 1 RANDOMREINIT 1 Demo.neg_square)))
      <= 100)%Z /\
  (4 <= num_informants (snd (decode_vec [10; 4; 1; 1; 1; 1; 1]%Q
         (Demo.configured 2 1 (-1, 1)%Q 1 RANDOMREINIT 1 Demo.neg_square)))
      <= 8)%Z /\
  fst (_instantiate_particles Demo.thirds Demo.np_count
         (snd (decode_vec [10; 4; 1; 1; 1; 1; 1]%Q
            (Demo.configured 2 1 (-1, 1)%Q 1 RANDOMREINIT 1 Demo.neg_square))))
    = Ok tt.
Proof.
  destruct (decoded_swarm_instantiates Demo.thirds Demo.np_count
              [10; 4; 1; 1; 1; 1; 1]%Q
              (Demo.configured 2 1 (-1, 1)%Q 1 RANDOMREINIT 1 Demo.neg_square)
              [(-1, 1)%Q] Demo.neg_square)
    as (H1 & H2 & H3 & H4 & _).
  - repeat constructor; discriminate.
  - reflexivity.
  - reflexivity.
  - exact (conj H1 (conj H2 (conj H3 H4))).
Defined.

(** ** Averaging over runs *)

Lemma sum_lower_bound (c : Q) (l : list Q) :
  Forall (fun y => c <= y)%Q l ->
  (c * inject_Z (Z.of_nat (length l)) <= fold_right Qplus 0 l)%Q.
Proof.
  induction 1 as [|y l Hy _ IH].
  - cbn [length fold_right]. change (inject_Z (Z.of_nat 0)) with 0%Q. lra.
  - cbn [length fold_right]. rewrite Nat2Z.inj_succ, <- Z.add_1_r, inject_Z_plus.
    change (inject_Z 1) with 1%Q. lra.
Qed.

Lemma np_mean_lower_bound (c : Q) (l : list Q) (x : Q) :
  Forall (fun y => c <= y)%Q l -> np_mean l = Some x -> (c <= x)%Q.
Proof.
  intros Hall Hmean. pose proof (sum_lower_bound c l Hall) as Hsum.
  destruct l as [|y l]; [done|]. injection Hmean as <-.
  apply Qle_shift_div_l; [|exact Hsum].
  change 0%Q with (inject_Z 0). rewrite <- Zlt_Qlt. simpl. lia.
Qed.

Section MeanOfRuns.
Variable random : nat -> Q.
Variable np_random : nat -> nat.

Lemma run_leaves_best s :
  match run random np_random s with
  | (Ok _, s') =>
      exists fl, best s' = Some fl /\ (fitness sentinel_run <= fitness fl)%Q
  | (Raise _, _) => True
  end.
Proof.
  rewrite run_unfold.
  pose proof (run_prologue_best random np_random s) as Hbest.
  destruct (run_prologue random np_random s) as [[[]|e] s1]; simpl in *; [|done].
  specialize (Hbest eq_refl).
  pose proof (run_loop_keeps random best_not_worse (Z.to_nat (max_iter s1))
                (mkController 0 (max_iter s1)) (sweep_best random) s1
                sentinel_run Hbest) as (fl & Hfl & Hle).
  destruct (run_loop random _ _ s1) as [[c|e] s2]; simpl in *; [|done].
  exists fl. done.
Qed.

Lemma evaluate_runs_unfold n fitness_list s :
  evaluate_runs random np_random (S n) fitness_list s
  = match run random np_random s with
    | (Ok _, s1) =>
        match best s1 with
        | Some fl =>
            evaluate_runs random np_random n (fitness_list ++ [fitness fl]) s1
        | None => (Raise AttributeError, s1)
        end
    | (Raise e, s1) => (Raise e, s1)
    end.
Proof.
  cbn [evaluate_runs]. run_monad.
  destruct (run random np_random s) as [[b|e] s1]; [|done].
  by destruct (best s1).
Qed.

Lemma evaluate_runs_bound n : forall fitness_list s l,
  Forall (fun y => fitness sentinel_run <= y)%Q fitness_list ->
  fst (evaluate_runs random np_random n fitness_list s) = Ok l ->
  Forall (fun y => fitness sentinel_run <= y)%Q l /\
  length l = length fitness_list + n.
Proof.
  induction n as [|n IH]; intros acc s l Hacc Hok.
  - simpl in Hok. injection Hok as <-. split; [done | lia].
  - rewrite evaluate_runs_unfold in Hok.
    pose proof (run_leaves_best s) as Hrun.
    destruct (run random np_random s) as [[b|e] s1]; [|done].
    destruct Hrun as (fl & Hfl & Hle). rewrite Hfl in Hok.
    apply IH in Hok as [Hall Hlen].
    + split; [done|]. rewrite Hlen, length_app. simpl. lia.
    + apply Forall_app. split; [done|]. by constructor.
Qed.

(** evaluate_fitness: when it returns a number, [num_runs] is positive and
    the number, the mean of the best fitness of each run, is at least the
    sentinel fitness -9999 that every [run] starts from; when it returns
    numpy's nan, [num_runs] is zero or negative and nothing was averaged. *)
Theorem evaluate_fitness_mean_above_sentinel num_runs vec s m :
  fst (evaluate_fitness random np_random num_runs vec s) = Ok m ->
  match m with
  | Some x => (0 < num_runs)%Z /\ (fitness sentinel_run <= x)%Q
  | None => (num_runs <= 0)%Z
  end.
Proof.
  unfold evaluate_fitness. run_monad.
  destruct (decode_vec vec s) as [[[]|e] s1]; [|done].
  destruct (evaluate_runs random np_random (Z.to_nat num_runs) [] s1)
    as [[l|e] s2] eqn:Hruns; [|done].
  intros [= <-].
  destruct (evaluate_runs_bound (Z.to_nat num_runs) [] s1 l) as [Hall Hlen];
    [done | by rewrite Hruns |].
  destruct (np_mean l) as [x|] eqn:Hmean.
  - split.
    + destruct l; [done|]. simpl in Hlen. lia.
    + by apply (np_mean_lower_bound _ l).
  - destruct l; [|done]. simpl in Hlen. lia.
Qed.

End MeanOfRuns.

Lemma evaluate_fitness_mean_above_sentinel_witness :
  exists x : Q, (0 < 2)%Z /\ (fitness sentinel_run <= x)%Q.
Proof.
  eexists.
  eapply (evaluate_fitness_mean_above_sentinel Demo.quarters Demo.np_count 2
            [10; 4; 1; 1; 1; 1; 1]%Q
            (Demo.configured 2 1 (-1, 1)%Q 1 RANDOMREINIT 1 Demo.neg_square)
            (Some _)).
  vm_compute. reflexivity.
Defined.

(** ** Starting over *)

Section Restart.
Variable random : nat -> Q.
Variable np_random : nat -> nat.

Lemma _instantiate_particles_discards s dims f x :
  pso_fitness_fn s = Some f -> search_dimension s = Some dims ->
  _instantiate_particles random np_random (set_particles x s)
  = _instantiate_particles random np_random s.
Proof.
  intros Hf Hd.
  destruct (_instantiate_particles_unfold random np_random s dims f Hf Hd)
    as (ps & Heq & Hlen & Hks).
  destruct (_instantiate_particles_unfold random np_random
              (set_particles x s) dims f Hf Hd)
    as (ps' & Heq' & Hlen' & Hks').
  rewrite Heq, Heq'. simpl in Hlen', Hks'.
  assert (ps' = ps) as ->; [|done].
  apply list_eq. intros k.
  destruct (decide (k < Z.to_nat (swarm_size s))) as [Hk|Hk].
  - by rewrite Hks, Hks'.
  - rewrite !lookup_ge_None_2 by lia. done.
Qed.

(** run never goes back to the particles of an earlier run.  With the
    dimensions set and a fitness function, whatever [self.particles] holds
    when [run] is called, the result, the exception if any and the state
    left behind are the same. *)
Theorem run_discards_earlier_particles s dims f x :
  search_dimension_set s = true ->
  pso_fitness_fn s = Some f -> search_dimension s = Some dims ->
  run random np_random (set_particles x s) = run random np_random s.
Proof.
  intros Hset Hf Hd.
  rewrite !run_unfold, !run_prologue_unfold.
  change (search_dimension_set (set_particles x s))
    with (search_dimension_set s).
  rewrite Hset. cbn [negb].
  by rewrite (_instantiate_particles_discards s dims f x Hf Hd).
Qed.

End Restart.

Lemma run_discards_earlier_particles_witness :
  run Demo.quarters Demo.np_count
    (set_particles (Some [Demo.still])
       (Demo.configured 3 1 (-1, 1)%Q 1 RANDOMREINIT 2 Demo.neg_square))
  = run Demo.quarters Demo.np_count
      (Demo.configured 3 1 (-1, 1)%Q 1 RANDOMREINIT 2 Demo.neg_square).
Proof.
  apply (run_discards_earlier_particles Demo.quarters Demo.np_count
           (Demo.configured 3 1 (-1, 1)%Q 1 RANDOMREINIT 2 Demo.neg_square)
           [(-1, 1)%Q] Demo.neg_square (Some [Demo.still])); reflexivity.
Defined.

(** ** A search without dimensions *)

Section NoDimensions.
Variable random : nat -> Q.
Variable np_random : nat -> nat.

Lemma run_loop_at_rest s b pb :
  sweep random s = (Ok tt, s) ->
  best s = Some b -> previous_best s = Some pb ->
  forall fuel c, exists c', run_loop random fuel c s = (Ok c', s).
Proof.
  intros Hsweep Hb Hpb fuel.
  induction fuel as [|fuel IH]; intros c; cbn [run_loop]; [by eexists|].
  destruct (terminate c); [by eexists|].
  unfold mbind, M_bind. rewrite Hsweep.
  unfold fitness_delta. run_monad. rewrite Hb, Hpb. simpl.
  apply IH.
Qed.

Lemma _instantiate_particles_at_rest s f :
  pso_fitness_fn s = Some f -> search_dimension s = Some [] ->
  (0 <= num_informants s)%Z -> (num_informants s < swarm_size s)%Z ->
  exists s1 ps,
    _instantiate_particles random np_random s = (Ok tt, s1) /\
    particles s1 = Some ps /\
    Forall (fun p => any_nonzero (velocity p) = false) ps /\
    previous_best s1 = previous_best s.
Proof.
  intros Hf Hd H0 Hsize.
  destruct (_instantiate_particles_wired random np_random s [] f Hf Hd H0 Hsize)
    as (Hok & _ & ps1 & Hps1 & _).
  destruct (_instantiate_particles_unfold random np_random s [] f Hf Hd)
    as (ps & Heq & Hlen & Hks).
  pose proof (_init_informants_frame np_random
                (set_particles (Some ps)
                   (set_random_state
                      (random_state s + 2 * length (@nil (Q * Q))
                                        * Z.to_nat (swarm_size s)) s)))
    as (_ & _ & _ & Hpb & Hrel).
  rewrite <- Heq in Hpb, Hrel.
  destruct (_instantiate_particles random np_random s) as [o s1].
  simpl in Hok, Hps1, Hpb, Hrel. subst o.
  exists s1, ps1. split; [done|]. split; [done|]. split; [|done].
  apply Forall_lookup. intros k p' Hp'.
  destruct (particles_rel_lookup_r _ _ _ k p' Hrel) as (p & Hp & Hsame).
  { unfold particle_at. by rewrite Hps1. }
  unfold particle_at in Hp. simpl in Hp.
  rewrite Hks in Hp by (rewrite <- Hlen; by eapply lookup_lt_Some).
  injection Hp as <-.
  destruct Hsame as (_ & -> & _). done.
Qed.

(** set_search_dimensions with an int that is zero or negative sets an empty
    list of dimensions, and a run that follows it (fitness function set,
    [0 <= K < S]) neither fails nor searches: every particle has an empty
    velocity, so none is ever assessed or moved, and [run] returns the
    sentinel [FitnessLoc([], -9999.0)] whatever the fitness function and the
    number of iterations. *)
Theorem run_without_dimensions_returns_sentinel s n f pb :
  (n <= 0)%Z ->
  pso_fitness_fn s = Some f -> previous_best s = Some pb ->
  (0 <= num_informants s)%Z -> (num_informants s < swarm_size s)%Z ->
  fst ((set_search_dimensions (DimInt n);; run random np_random) s)
  = Ok (Some sentinel_run).
Proof.
  intros Hn Hf Hpb H0 Hsize.
  unfold set_search_dimensions. run_monad.
  replace (Z.to_nat n) with 0 by lia. cbn [replicate].
  set (s0 := set_search_dimension (Some []) true s).
  destruct (_instantiate_particles_at_rest s0 f) as (s1 & ps & Hinst & Hps & Hrest & Hpb1);
    [done..|].
  rewrite run_unfold, run_prologue_unfold. cbn [search_dimension_set s0 set_search_dimension negb].
  rewrite Hinst.
  destruct (run_loop_at_rest (set_best (Some sentinel_run) s1) sentinel_run pb)
    with (fuel := Z.to_nat (max_iter (set_best (Some sentinel_run) s1)))
         (c := mkController 0 (max_iter (set_best (Some sentinel_run) s1)))
    as (c' & Hloop).
  - by apply (sweep_at_rest random _ ps).
  - done.
  - simpl. by rewrite Hpb1.
  - rewrite Hloop. done.
Qed.

End NoDimensions.

Lemma run_without_dimensions_returns_sentinel_witness :
  fst ((set_search_dimensions (DimInt (-3));; run Demo.quarters Demo.np_count)
         (Demo.configured 3 1 (-1, 1)%Q 1 RANDOMREINIT 2 Demo.neg_square))
  = Ok (Some sentinel_run).
Proof.
  apply (run_without_dimensions_returns_sentinel Demo.quarters Demo.np_count
           (Demo.configured 3 1 (-1, 1)%Q 1 RANDOMREINIT 2 Demo.neg_square)
           (-3) Demo.neg_square sentinel_init);
    [discriminate | reflexivity | reflexivity | discriminate | reflexivity].
Defined.
